(** * Storage-policy arrays (Array.h) and signature guard (PublicKey)

    A shallow embedding of [data::ArrayBase], [data::Array<T>],
    [data::ArrayImpl<T, StoragePolicy>] and the storage policies of Array.h,
    and of [PublicKey::verifySignature], [loadPublicKey] and
    [PublicKey::getServerPublicKey].

    Conventions.
    - [size_t] is the 64-bit unsigned type of an LP64 target: a value of [N]
      below [2 ^ 64], every arithmetic operation reduced modulo [2 ^ 64].
    - The free store is a list of blocks; block [b] is [mem s !! b], it is
      [Some None] once it has been deleted.  A block is a list of cells, an
      uninitialised cell is [None].
    - A computation is a function [state -> option (A * state)]; [None]
      stands for undefined behaviour (null or out-of-bounds access, reading
      an indeterminate value, deleting what [new[]] did not return, an
      invalid pointer handed to [memcpy] or [strcpy]).
    - [operator new[]] is taken to succeed: [std::bad_alloc] is not modelled.
    - [log] is ghost state: the allocations and deallocations performed so
      far, in order. *)

From Stdlib Require Import NArith ZArith Ascii String List Lia.
From stdpp Require Import base tactics option list numbers.

Local Open Scope N_scope.

(** ** size_t and the dimension utility *)

Definition SIZE_MODULUS : N := 2 ^ 64.

Definition size_add (a b : N) : N := (a + b) mod SIZE_MODULUS.
Definition size_mul (a b : N) : N := (a * b) mod SIZE_MODULUS.

(** [typedef std::vector<size_t> Dims;] *)
Definition Dims := list N.

(** [ArrayBase::calculateSize]: [size = 1; for (it ...) size *= *it;] *)
Definition calculateSize (dims : Dims) : N :=
  fold_left (fun size d => size_mul size d) dims 1.

(** The exact (unbounded) product of the entries. *)
Definition product (dims : Dims) : N := foldr N.mul 1 dims.

(** ** Pointers *)

Inductive ptr : Type :=
| Null
| Ptr (b : nat) (o : nat).

Definition ptr_eqb (p q : ptr) : bool :=
  match p, q with
  | Null, Null => true
  | Ptr b o, Ptr b' o' => Nat.eqb b b' && Nat.eqb o o'
  | _, _ => false
  end.

(** The terminator of a C string. *)
Definition NUL : ascii := Ascii.zero.

(** Allocation events (ghost). *)
Inductive event : Type :=
| EvNew (b : nat) (n : nat)
| EvDelete (b : nat).

Section Memory.

(** [T] is the element type of the primary templates (a POD type other
    than [char] and [char *]); [T_neq] is its [operator!=]. *)
Context {T : Type}.
Variable T_neq : T -> T -> bool.

Inductive val : Type :=
| VPod (t : T)
| VChar (c : ascii)
| VPtr (p : ptr).

Definition cell : Type := option val.

Record state : Type := mkState {
  mem : list (option (list cell));
  log : list event
}.

Definition M (A : Type) : Type := state -> option (A * state).

Definition ret {A} (a : A) : M A := fun s => Some (a, s).

Definition bind {A B} (m : M A) (k : A -> M B) : M B :=
  fun s => match m s with
           | Some (a, s') => k a s'
           | None => None
           end.

Definition undefined {A} : M A := fun _ => None.

#[local] Instance M_ret : MRet M := @ret.
#[local] Instance M_bind : MBind M := fun A B k m => bind m k.

(** *** Primitive memory operations *)

(** The live block [b], if any. *)
Definition block_at (s : state) (b : nat) : option (list cell) :=
  match mem s !! b with
  | Some (Some blk) => Some blk
  | _ => None
  end.

(** [new X[n]]: a fresh block of [n] uninitialised cells. *)
Definition new_array (n : nat) : M ptr := fun s =>
  let b := length (mem s) in
  Some (Ptr b 0,
        {| mem := mem s ++ [Some (replicate n None)];
           log := log s ++ [EvNew b n] |}).

(** [delete [] p]: nothing for a null pointer; otherwise [p] must be
    what [new[]] returned, not yet deleted. *)
Definition delete_array (p : ptr) : M unit := fun s =>
  match p with
  | Null => Some (tt, s)
  | Ptr b o =>
      match o, block_at s b with
      | O, Some _ =>
          Some (tt, {| mem := <[b := None]> (mem s);
                       log := log s ++ [EvDelete b] |})
      | _, _ => None
      end
  end.

(** Raw read of [p[i]] (as [memcpy] and [strcpy] do): the cell may be
    uninitialised. *)
Definition load_cell (p : ptr) (i : nat) : M cell := fun s =>
  match p with
  | Null => None
  | Ptr b o =>
      match block_at s b with
      | Some blk =>
          match blk !! (o + i)%nat with
          | Some c => Some (c, s)
          | None => None
          end
      | None => None
      end
  end.

(** Raw write [p[i] = c]. *)
Definition store_cell (p : ptr) (i : nat) (c : cell) : M unit := fun s =>
  match p with
  | Null => None
  | Ptr b o =>
      match block_at s b with
      | Some blk =>
          if decide (o + i < length blk)%nat
          then Some (tt, {| mem := <[b := Some (<[(o + i)%nat := c]> blk)]> (mem s);
                            log := log s |})
          else None
      | None => None
      end
  end.

(** Typed read of [p[i]]: an indeterminate value is undefined behaviour. *)
Definition load (p : ptr) (i : nat) : M val :=
  c ← load_cell p i;
  match c with
  | Some v => ret v
  | None => undefined
  end.

(** [for (size_t i = i0; i < i0 + n; ++i) body(i);] *)
Fixpoint for_loop (n : nat) (i : nat) (body : nat -> M unit) : M unit :=
  match n with
  | O => ret tt
  | S n' => body i;; for_loop n' (S i) body
  end.

(** *** The C library routines the policies call *)

(** A pointer value the C library accepts as an argument: into a live
    block or one past its end.  A null pointer and a pointer into a deleted
    block are not. *)
Definition valid_ptr (s : state) (p : ptr) : bool :=
  match p with
  | Null => false
  | Ptr b o =>
      match block_at s b with
      | Some blk => bool_decide (o <= length blk)%nat
      | None => false
      end
  end.

(** The copying of [memcpy], element by element. *)
Definition memcpy_loop (dst src : ptr) (n : nat) : M unit :=
  for_loop n 0 (fun i => c ← load_cell src i; store_cell dst i c).

(** [memcpy(dst, src, n * sizeof(T))].  Both pointers must be valid, also
    when nothing is copied; the byte count cannot wrap for a block that
    [new T[n]] delivered. *)
Definition memcpy (dst src : ptr) (n : nat) : M unit := fun s =>
  if valid_ptr s dst && valid_ptr s src then memcpy_loop dst src n s
  else None.

(** The characters before the first terminator of a cell sequence;
    [None] when the sequence ends, or holds something that is not an
    initialised [char], before a terminator is met. *)
Fixpoint cstr_of_cells (l : list cell) : option (list ascii) :=
  match l with
  | Some (VChar c) :: l' =>
      if Ascii.eqb c NUL then Some []
      else match cstr_of_cells l' with
           | Some str => Some (c :: str)
           | None => None
           end
  | _ => None
  end.

(** The C string [p] points to. *)
Definition read_string (s : state) (p : ptr) : option (list ascii) :=
  match p with
  | Null => None
  | Ptr b o =>
      match block_at s b with
      | Some blk => cstr_of_cells (drop o blk)
      | None => None
      end
  end.

(** [strlen(p)], a [size_t]. *)
Definition strlen (p : ptr) : M N := fun s =>
  match read_string s p with
  | Some str => Some (N.of_nat (length str) mod SIZE_MODULUS, s)
  | None => None
  end.

(** [strcpy(dst, src)]: the characters of [src] and its terminator
    (the two objects do not overlap in any call of Array.h, [dst] being
    fresh). *)
Definition strcpy (dst src : ptr) : M unit := fun s =>
  match read_string s src with
  | Some str => memcpy dst src (S (length str)) s
  | None => None
  end.

(** *** Storage policies *)

(** [CopyPolicy<T>::copy] *)
Definition CopyPolicy_copy (p : ptr) (size : N) : M ptr :=
  copy ← new_array (N.to_nat size);
  memcpy copy p (N.to_nat size);;
  ret copy.

(** [CopyPolicy<T>::destroy] *)
Definition CopyPolicy_destroy (p : ptr) (size : N) : M unit :=
  if negb (ptr_eqb Null p) then delete_array p else ret tt.

(** [CopyPolicy<char>::copy] *)
Definition CopyPolicy_char_copy (p : ptr) (size : N) : M ptr :=
  copy ← new_array (N.to_nat (size_add size 1));
  strcpy copy p;;
  ret copy.

(** [CopyPolicy<char>::destroy] *)
Definition CopyPolicy_char_destroy (p : ptr) (size : N) : M unit :=
  if negb (ptr_eqb Null p) then delete_array p else ret tt.

(** Reading a [char *] element of an array of strings. *)
Definition load_ptr (p : ptr) (i : nat) : M ptr :=
  v ← load p i;
  match v with
  | VPtr q => ret q
  | _ => undefined
  end.

(** [CopyPolicy<char *>::copy] *)
Definition CopyPolicy_charptr_copy (p : ptr) (size : N) : M ptr :=
  copy ← new_array (N.to_nat size);
  for_loop (N.to_nat size) 0 (fun i =>
    src_i ← load_ptr p i;
    len ← strlen src_i;
    copy_i ← new_array (N.to_nat (size_add len 1));
    store_cell copy i (Some (VPtr copy_i));;
    copy_i' ← load_ptr copy i;
    src_i' ← load_ptr p i;
    strcpy copy_i' src_i');;
  ret copy.

(** The loop shared by the [char *] destructors:
    [for (i = 0; i < size; ++i) delete[] ptr[i];] *)
Definition delete_strings (p : ptr) (size : N) : M unit :=
  for_loop (N.to_nat size) 0 (fun i =>
    q ← load_ptr p i;
    delete_array q).

(** [CopyPolicy<char *>::destroy] *)
Definition CopyPolicy_charptr_destroy (p : ptr) (size : N) : M unit :=
  if negb (ptr_eqb Null p) then delete_strings p size;; delete_array p
  else ret tt.

(** [MovePolicy<T>::copy], [MovePolicy<char>::copy] and
    [MovePolicy<char *>::copy]: [return ptr;] *)
Definition MovePolicy_copy (p : ptr) (size : N) : M ptr := ret p.

(** [MovePolicy<T>::destroy] and [MovePolicy<char>::destroy] *)
Definition MovePolicy_destroy (p : ptr) (size : N) : M unit :=
  if negb (ptr_eqb Null p) then delete_array p else ret tt.

(** [MovePolicy<char *>::destroy] *)
Definition MovePolicy_charptr_destroy (p : ptr) (size : N) : M unit :=
  if negb (ptr_eqb Null p) then delete_strings p size;; delete_array p
  else ret tt.

(** [MoveStringPolicy<T>::copy] *)
Definition MoveStringPolicy_copy (p : ptr) (size : N) : M ptr := ret p.

(** [MoveStringPolicy<T>::destroy] *)
Definition MoveStringPolicy_destroy (p : ptr) (size : N) : M unit :=
  if negb (ptr_eqb Null p) then delete_array p else ret tt.

(** [ShallowCopyPolicy<T>::copy] *)
Definition ShallowCopyPolicy_copy (p : ptr) (size : N) : M ptr := ret p.

(** [ShallowCopyPolicy<T>::destroy]: empty body. *)
Definition ShallowCopyPolicy_destroy (p : ptr) (size : N) : M unit := ret tt.

(** The template template parameter [StoragePolicy] and the element type
    [T], as far as template specialisation distinguishes it. *)
Inductive StoragePolicy : Type :=
| CopyPolicy
| MovePolicy
| MoveStringPolicy
| ShallowCopyPolicy.

Inductive ElemType : Type :=
| TPod
| TChar
| TCharPtr.

(** [StoragePolicy<T>::copy], resolved as the compiler resolves it. *)
Definition policy_copy (P : StoragePolicy) (E : ElemType) : ptr -> N -> M ptr :=
  match P, E with
  | CopyPolicy, TPod => CopyPolicy_copy
  | CopyPolicy, TChar => CopyPolicy_char_copy
  | CopyPolicy, TCharPtr => CopyPolicy_charptr_copy
  | MovePolicy, _ => MovePolicy_copy
  | MoveStringPolicy, _ => MoveStringPolicy_copy
  | ShallowCopyPolicy, _ => ShallowCopyPolicy_copy
  end.

(** [StoragePolicy<T>::destroy] *)
Definition policy_destroy (P : StoragePolicy) (E : ElemType) : ptr -> N -> M unit :=
  match P, E with
  | CopyPolicy, TPod => CopyPolicy_destroy
  | CopyPolicy, TChar => CopyPolicy_char_destroy
  | CopyPolicy, TCharPtr => CopyPolicy_charptr_destroy
  | MovePolicy, TCharPtr => MovePolicy_charptr_destroy
  | MovePolicy, _ => MovePolicy_destroy
  | MoveStringPolicy, _ => MoveStringPolicy_destroy
  | ShallowCopyPolicy, _ => ShallowCopyPolicy_destroy
  end.

(** *** Array<T> *)

Record Array : Type := mkArray {
  ptr_ : ptr;
  dims_ : Dims;
  size_ : N
}.

(** The protected constructor [Array(ptr, dims)]. *)
Definition Array_ctor (p : ptr) (dims : Dims) : Array :=
  {| ptr_ := p; dims_ := dims; size_ := calculateSize dims |}.

(** [Array<T>::getArray]: the pointer, and the dimensions written to the
    output parameter. *)
Definition getArray (a : Array) : ptr * Dims := (ptr_ a, dims_ a).

(** [Array<T>::getSize] *)
Definition getSize (a : Array) : N := size_ a.

(** [operator!=] on elements: [T]'s own for the primary template, the
    built-in one on [char] and on pointers. *)
Definition val_neq (x y : val) : bool :=
  match x, y with
  | VPod a, VPod b => T_neq a b
  | VChar a, VChar b => negb (Ascii.eqb a b)
  | VPtr p, VPtr q => negb (ptr_eqb p q)
  | _, _ => true
  end.

(** The loop of [operator==], [n] iterations from index [i]. *)
Fixpoint equal_loop (a b : ptr) (n i : nat) : M bool :=
  match n with
  | O => ret true
  | S n' =>
      x ← load a i;
      y ← load b i;
      if val_neq x y then ret false
      else equal_loop a b n' (S i)
  end.

(** [Array<T>::operator==] *)
Definition Array_equal (this other : Array) : M bool :=
  if negb (bool_decide (dims_ this = dims_ other)) then ret false
  else equal_loop (ptr_ this) (ptr_ other) (N.to_nat (size_ this)) 0.

(** *** ArrayImpl<T, StoragePolicy> *)

(** An object of class [ArrayImpl<T, StoragePolicy>]: the [Array<T>]
    subobject, and the dynamic type, which selects the destructor a
    [delete] through [ArrayBase *] runs. *)
Record ArrayImpl : Type := mkArrayImpl {
  impl_policy : StoragePolicy;
  impl_elem : ElemType;
  impl_array : Array
}.

(** [ArrayImpl(ptr, dims)] *)
Definition ArrayImpl_ctor (P : StoragePolicy) (E : ElemType)
    (p : ptr) (dims : Dims) : M ArrayImpl :=
  q ← policy_copy P E p (calculateSize dims);
  ret {| impl_policy := P; impl_elem := E; impl_array := Array_ctor q dims |}.

(** [~ArrayImpl()] (the bodies of [~Array] and [~ArrayBase] are empty). *)
Definition ArrayImpl_dtor (a : ArrayImpl) : M unit :=
  policy_destroy (impl_policy a) (impl_elem a)
    (ptr_ (impl_array a)) (size_ (impl_array a)).

(** *** What an observer sees *)

(** The [n] cells starting at [p]. *)
Definition cells_at (s : state) (p : ptr) (n : nat) : option (list cell) :=
  match p with
  | Null => None
  | Ptr b o =>
      match block_at s b with
      | Some blk =>
          if decide (o + n <= length blk)%nat
          then Some (take n (drop o blk))
          else None
      | None => None
      end
  end.

(** The [n] elements starting at [p], all of them initialised. *)
Definition values_at (s : state) (p : ptr) (n : nat) : option (list val) :=
  match cells_at s p n with
  | Some cs => mapM (fun c : cell => c) cs
  | None => None
  end.

(** The elements of an array, read through its stored handle. *)
Definition array_contents (s : state) (a : ArrayImpl) : option (list cell) :=
  cells_at s (ptr_ (impl_array a)) (N.to_nat (size_ (impl_array a))).

(** The representation of a C string: its characters and the terminator. *)
Definition cstring (str : list ascii) : list cell :=
  map (fun c => Some (VChar c)) str ++ [Some (VChar NUL)].

(** The string behind a cell that holds a [char *]. *)
Definition string_of_cell (s : state) (c : cell) : option (list ascii) :=
  match c with
  | Some (VPtr q) => read_string s q
  | _ => None
  end.

(** The strings an array of [n] string handles refers to. *)
Definition strings_at (s : state) (p : ptr) (n : nat)
  : option (list (list ascii)) :=
  match cells_at s p n with
  | Some cs => mapM (string_of_cell s) cs
  | None => None
  end.

(** The handles [CopyPolicy<char *>::copy] stores in the block [nb] it
    allocates first: string [i] goes to the block allocated [i + 1]-th. *)
Definition string_handles (nb n : nat) : list cell :=
  (fun i => Some (VPtr (Ptr (nb + 1 + i) 0))) <$> seq 0 n.

(** Block [nb] holds [string_handles], and the blocks after it hold the
    strings: a deep copy of [strs] sits at [nb]. *)
Definition strings_copy_at (s : state) (nb : nat) (strs : list (list ascii)) : Prop :=
  block_at s nb = Some (string_handles nb (length strs))
  /\ forall i str, strs !! i = Some str ->
                   block_at s (nb + 1 + i) = Some (cstring str).

(** What one compares to tell whether two arrays of element type [E] hold
    the same: the elements themselves, or, for [char *] elements, the
    strings behind the handles. *)
Inductive observation : Type :=
| ObsCells (cs : list cell)
| ObsStrings (strs : list (list ascii)).

Definition observe (E : ElemType) (s : state) (p : ptr) (n : nat)
  : option observation :=
  match E with
  | TCharPtr =>
      match strings_at s p n with
      | Some strs => Some (ObsStrings strs)
      | None => None
      end
  | _ =>
      match cells_at s p n with
      | Some cs => Some (ObsCells cs)
      | None => None
      end
  end.

(** The same through an array's stored handle, count and element type. *)
Definition array_observe (s : state) (a : ArrayImpl) : option observation :=
  observe (impl_elem a) s (ptr_ (impl_array a)) (N.to_nat (size_ (impl_array a))).

(** What the deep copy of each element type needs of its source: [size]
    readable elements; a terminated text of exactly [size] characters; or
    [size] handles to terminated strings. *)
Definition copy_source (E : ElemType) (s : state) (p : ptr) (size : N) : Prop :=
  match E with
  | TPod => exists cs, cells_at s p (N.to_nat size) = Some cs
  | TChar =>
      (exists str, read_string s p = Some str
                   /\ length str = N.to_nat size)
      /\ size + 1 < 2 ^ 64
  | TCharPtr =>
      exists strs, strings_at s p (N.to_nat size) = Some strs
        /\ Forall (fun str => N.of_nat (length str) + 1 < 2 ^ 64) strs
  end.

(** What a caller can do to storage it still has a pointer to. *)
Inductive mutation : Type :=
| MutStore (p : ptr) (i : nat) (c : cell)
| MutDelete (p : ptr).

Definition mutation_block (m : mutation) : option nat :=
  match m with
  | MutStore (Ptr b _) _ _ | MutDelete (Ptr b _) => Some b
  | _ => None
  end.

Definition run_mutation (m : mutation) : M unit :=
  match m with
  | MutStore p i c => store_cell p i c
  | MutDelete p => delete_array p
  end.

Fixpoint run_mutations (ms : list mutation) : M unit :=
  match ms with
  | [] => ret tt
  | m :: ms' => run_mutation m;; run_mutations ms'
  end.

(** A mutation that stays within the blocks below [nb]. *)
Definition mutation_below (nb : nat) (m : mutation) : Prop :=
  match mutation_block m with
  | Some b => (b < nb)%nat
  | None => True
  end.

End Memory.

Arguments val : clear implicits.
Arguments cell : clear implicits.
Arguments state : clear implicits.
Arguments M : clear implicits.
Arguments mutation : clear implicits.

(** ** PublicKey *)

(** Modelled from the spec: the constant [SIGNATURE_SIZE] is declared
    outside the files at hand; the comment at its use says the signature is
    exactly 64 bytes long. *)
Definition SIGNATURE_SIZE : N := 64.

(** OpenSSL's numeric identifier of SHA-1. *)
Definition NID_sha1 : Z := 64%Z.

(** [RSA]: the two fields the constructor sets. *)
Record RSA : Type := mkRSA {
  rsa_n : Z;
  rsa_e : Z
}.

(** A computation that may call OpenSSL's [RSA_verify]; the call is kept
    as a node, the library's answer is the argument of the continuation. *)
Inductive crypto (A : Type) : Type :=
| Return (a : A)
| Call_RSA_verify (type : Z) (m : list Z) (m_length : N)
    (sigbuf : list Z) (siglen : N) (rsa : RSA) (k : Z -> crypto A).

Arguments Return {A} a.
Arguments Call_RSA_verify {A} type m m_length sigbuf siglen rsa k.

(** Whether a computation calls [RSA_verify]. *)
Definition invokes_RSA_verify {A} (c : crypto A) : bool :=
  match c with
  | Return _ => false
  | Call_RSA_verify _ _ _ _ _ _ _ => true
  end.

(** [reinterpret_cast<const unsigned char *>] on a [signed char]. *)
Definition to_unsigned_char (c : Z) : Z := (c mod 256)%Z.

(** Conversion of a [size_t] to [unsigned int]. *)
Definition to_unsigned_int (n : N) : N := n mod 2 ^ 32.

Record PublicKeyImpl : Type := mkPublicKeyImpl {
  publicKey_ : RSA
}.

(** [PublicKeyImpl::verifySignature] *)
Definition PublicKeyImpl_verifySignature (this : PublicKeyImpl)
    (messageDigest originalSignature : list Z) : crypto bool :=
  let signature := map to_unsigned_char originalSignature in
  let message := map to_unsigned_char messageDigest in
  Call_RSA_verify NID_sha1 message
    (to_unsigned_int (N.of_nat (length messageDigest)))
    signature (to_unsigned_int SIGNATURE_SIZE) (publicKey_ this)
    (fun res => Return (Z.eqb res 1)).

(** [PublicKey]: [impl_] is a [std::unique_ptr], empty or owning. *)
Record PublicKey : Type := mkPublicKey {
  impl_ : option PublicKeyImpl
}.

(** [PublicKey::verifySignature] *)
Definition PublicKey_verifySignature (this : PublicKey)
    (messageDigest originalSignature : list Z) : crypto bool :=
  if bool_decide (messageDigest = []) || bool_decide (originalSignature = [])
  then Return false
  else if negb (N.eqb (N.of_nat (length originalSignature)) SIGNATURE_SIZE)
  then Return false
  else match impl_ this with
       | None => Return false
       | Some impl => PublicKeyImpl_verifySignature impl messageDigest originalSignature
       end.

(** ** Pointers a caller can hold *)

(** The block a pointer points into. *)
Definition ptr_block (p : ptr) : option nat :=
  match p with
  | Null => None
  | Ptr b _ => Some b
  end.

(** A pointer that is null or points into a block the store has handed
    out, live or deleted: what a program can hold before an allocation. *)
Definition known_ptr {T} (s : state T) (p : ptr) : Prop :=
  match p with
  | Null => True
  | Ptr b _ => (b < length (mem s))%nat
  end.

(** The cells of an array of [char *] that holds the handles [hs]. *)
Definition handle_cells {T} (hs : list ptr) : list (cell T) :=
  map (fun h => Some (VPtr h)) hs.

(** The characters of a string literal. *)
Definition chars (str : string) : list ascii := list_ascii_of_string str.

(** Running a computation against an implementation of [RSA_verify]. *)
Fixpoint run_crypto {A} (rsa_verify : Z -> list Z -> N -> list Z -> N -> RSA -> Z)
    (c : crypto A) : A :=
  match c with
  | Return a => a
  | Call_RSA_verify type m m_length sigbuf siglen rsa k =>
      run_crypto rsa_verify (k (rsa_verify type m m_length sigbuf siglen rsa))
  end.

(** ** The key file *)

(** In this part a [std::string] is a list of characters. *)
Definition LF : ascii := "010"%char.
Definition CR : ascii := "013"%char.

(** A call that returns, or leaves by [throw std::runtime_error(what)]. *)
Inductive outcome (A : Type) : Type :=
| Returned (a : A)
| Thrown (what : list ascii).

Arguments Returned {A} a.
Arguments Thrown {A} what.

(** [std::ifstream], as far as [loadPublicKey] uses it: the characters
    not yet extracted and two of the state bits. *)
Record ifstream : Type := mkIfstream {
  is_open : bool;
  buffer : list ascii;
  eofbit : bool;
  failbit : bool
}.

(** [good()] *)
Definition good (f : ifstream) : bool := negb (eofbit f) && negb (failbit f).

(** [setstate(...)]: the bits given are added. *)
Definition setstate (f : ifstream) (eof fail : bool) : ifstream :=
  {| is_open := is_open f; buffer := buffer f;
     eofbit := eofbit f || eof; failbit := failbit f || fail |}.

(** The files there are: the content of each name that can be opened. *)
Definition filesystem : Type := list ascii -> option (list ascii).

(** [infile.open(fileName.c_str(), std::ifstream::in)] on a fresh stream. *)
Definition ifstream_open (fs : filesystem) (fileName : list ascii) : ifstream :=
  match fs fileName with
  | Some content => mkIfstream true content false false
  | None => mkIfstream false [] false true
  end.

(** [peek()]: the next character, not extracted; [None] is [EOF].  A
    stream that is not good gets [failbit] (from the sentry), a good one at
    its end gets [eofbit]. *)
Definition peek (f : ifstream) : option ascii * ifstream :=
  if good f then
    match buffer f with
    | [] => (None, setstate f true false)
    | c :: _ => (Some c, f)
    end
  else (None, setstate f false true).

(** [get()]: the next character, extracted. *)
Definition get (f : ifstream) : option ascii * ifstream :=
  if good f then
    match buffer f with
    | [] => (None, setstate f true true)
    | c :: rest =>
        (Some c, {| is_open := is_open f; buffer := rest;
                    eofbit := eofbit f; failbit := failbit f |})
    end
  else (None, setstate f false true).

(** What [std::getline] extracts from the characters at hand: the line,
    the characters left, and whether a delimiter ended the line (it is
    extracted and dropped) or the end of the input did. *)
Fixpoint extract_line (buf : list ascii) : list ascii * list ascii * bool :=
  match buf with
  | [] => ([], [], false)
  | c :: rest =>
      if Ascii.eqb c LF then ([], rest, true)
      else let '(line, rest', delim) := extract_line rest in
           (c :: line, rest', delim)
  end.

(** [std::getline(f, str)]: on a stream that is not good, [failbit] and
    [str] as it was; otherwise [str] is the line extracted, with [eofbit]
    if the input ended first and [failbit] if nothing at all was
    extracted. *)
Definition getline (f : ifstream) (str : list ascii) : list ascii * ifstream :=
  if good f then
    let '(line, rest, delim) := extract_line (buffer f) in
    (line, {| is_open := is_open f; buffer := rest;
              eofbit := negb delim;
              failbit := negb delim && bool_decide (line = []) |})
  else (str, setstate f false true).

(** A character read by [peek] compared with a character constant. *)
Definition peeked_is (c : option ascii) (x : ascii) : bool :=
  match c with
  | Some c => Ascii.eqb c x
  | None => false
  end.

(** [while (infile.peek() == '\r' || infile.peek() == '\n') infile.get();]
    with [fuel] iterations at most. *)
Fixpoint skip_line_ends (fuel : nat) (infile : ifstream) : option ifstream :=
  match fuel with
  | O => None
  | S fuel' =>
      let (c1, f1) := peek infile in
      if peeked_is c1 CR then skip_line_ends fuel' (snd (get f1))
      else
        let (c2, f2) := peek f1 in
        if peeked_is c2 LF then skip_line_ends fuel' (snd (get f2))
        else Some f2
  end.

(** [loadPublicKey]; [None] would be a loop that has not ended after one
    iteration more than there are characters. *)
Definition loadPublicKey (fs : filesystem) (fileName : list ascii)
  : option (outcome (list ascii * list ascii)) :=
  let infile := ifstream_open fs fileName in
  if Bool.eqb (is_open infile) false then
    Some (Thrown (chars "Error opening file with public key: " ++ fileName))
  else
    let (line, infile) := getline infile [] in
    if negb (failbit infile) then
      match skip_line_ends (S (length (buffer infile))) infile with
      | Some infile =>
          let exponent := line in
          let (line, infile) := getline infile line in
          if negb (failbit infile) then
            let modulus := line in
            Some (Returned (exponent, modulus))
          else
            Some (Thrown (chars "Error reading modulus from public key file: "
                          ++ fileName))
      | None => None
      end
    else
      Some (Thrown (chars "Error reading exponent from public key file: "
                    ++ fileName)).

(** The characters before the first line feed, and those after it. *)
Definition first_line (l : list ascii) : list ascii := (extract_line l).1.1.
Definition after_first_line (l : list ascii) : list ascii := (extract_line l).1.2.

(** Carriage returns and line feeds at the front removed. *)
Fixpoint drop_line_ends (l : list ascii) : list ascii :=
  match l with
  | c :: rest =>
      if Ascii.eqb c CR || Ascii.eqb c LF then drop_line_ends rest else l
  | [] => []
  end.

(** ** The server key *)

Section ServerKey.

(** OpenSSL's [BN_hex2bn] on a fresh [BN_new()]: the number it leaves in
    the [BIGNUM]; and the result of [Config::getPublicKeyPath()]. *)
Variable BN_hex2bn : list ascii -> Z.
Variable Config_getPublicKeyPath : list ascii.

(** [PublicKeyImpl::PublicKeyImpl(exponent, modulus)] *)
Definition PublicKeyImpl_ctor (exponent modulus : list ascii) : PublicKeyImpl :=
  let exp := BN_hex2bn exponent in
  let mod_ := BN_hex2bn modulus in
  {| publicKey_ := {| rsa_n := mod_; rsa_e := exp |} |}.

(** [PublicKey::PublicKey(exponent, modulus)] *)
Definition PublicKey_ctor (exponent modulus : list ascii) : PublicKey :=
  {| impl_ := Some (PublicKeyImpl_ctor exponent modulus) |}.

(** [PublicKey::getServerPublicKey()]; the function-local static
    [serverPublicKey] is passed in and handed back.  The lock is held for
    the whole call and has no part in a sequential run. *)
Definition getServerPublicKey (fs : filesystem) (serverPublicKey : option PublicKey)
  : option (outcome PublicKey * option PublicKey) :=
  match serverPublicKey with
  | None =>
      let pkeyPath := Config_getPublicKeyPath in
      match loadPublicKey fs pkeyPath with
      | Some (Returned data) =>
          let serverPublicKey := PublicKey_ctor data.1 data.2 in
          Some (Returned serverPublicKey, Some serverPublicKey)
      | Some (Thrown what) => Some (Thrown what, None)
      | None => None
      end
  | Some key => Some (Returned key, Some key)
  end.

End ServerKey.

(** ** Concrete stores for the examples; the POD element type is [int]. *)

Definition int_neq (x y : Z) : bool := negb (Z.eqb x y).

Definition ints (l : list Z) : list (cell Z) := map (fun z => Some (VPod z)) l.

(** One block: the ints 1, 2, 3. *)
Definition st_ints : state Z := mkState [Some (ints [1; 2; 3]%Z)] [].

(** Three blocks of three ints, the first two alike. *)
Definition st_pair : state Z :=
  mkState [Some (ints [1; 2; 3]%Z); Some (ints [1; 2; 3]%Z);
           Some (ints [1; 2; 4]%Z)] [].

(** One block of six ints, viewed below as 2 x 3 and as 3 x 2. *)
Definition st_six : state Z := mkState [Some (ints [1; 2; 3; 4; 5; 6]%Z)] [].

(** One block of three characters: a, the terminator, b. *)
Definition st_a0b : state Z :=
  mkState [Some [Some (VChar "a"%char); Some (VChar NUL); Some (VChar "b"%char)]] [].

(** One block: the text "abc" and its terminator. *)
Definition st_abc : state Z := mkState [Some (cstring (chars "abc"))] [].

(** Blocks 0 and 1 hold "x" and "yz", block 2 the handles to them. *)
Definition st_strings : state Z :=
  mkState [Some (cstring (chars "x")); Some (cstring (chars "yz"));
           Some [Some (VPtr (Ptr 0 0)); Some (VPtr (Ptr 1 0))]] [].

(** The value of an option that is known to hold one. *)
Definition option_get {A} (o : option (list A)) : list A :=
  match o with
  | Some l => l
  | None => []
  end.

(** The store with no block at all. *)
Definition st_empty : state Z := mkState [] [].

(** One block, of length 0. *)
Definition st_no_chars : state Z := mkState [Some []] [].

(** * Properties *)

(** ** The dimension utility *)

Lemma fold_size_mul (dims : Dims) (a : N) :
  fold_left (fun size d => size_mul size d) dims (a mod SIZE_MODULUS)
  = (a * product dims) mod SIZE_MODULUS.
Proof.
  revert a; induction dims as [|d dims IH]; intros a; simpl.
  - by rewrite N.mul_1_r.
  - change (size_mul (a mod SIZE_MODULUS) d)
      with (((a mod SIZE_MODULUS) * d) mod SIZE_MODULUS).
    rewrite IH, <- N.mul_assoc, N.Div0.mul_mod_idemp_l.
    reflexivity.
Qed.

Lemma calculateSize_mod (dims : Dims) :
  calculateSize dims = product dims mod SIZE_MODULUS.
Proof.
  unfold calculateSize.
  change 1 with (1 mod SIZE_MODULUS) at 1.
  rewrite fold_size_mul. f_equal. lia.
Qed.

Lemma product_app (d1 d2 : Dims) : product (d1 ++ d2) = product d1 * product d2.
Proof.
  induction d1 as [|d d1 IH]; simpl.
  - lia.
  - unfold product in *. simpl. rewrite IH. lia.
Qed.

(** C1, as the code has it: [calculateSize] returns the product of the
    entries reduced modulo [2 ^ 64] (the arithmetic of [size_t]), hence the
    product itself whenever that is below [2 ^ 64]; the empty vector gives
    1, and a vector with a zero entry gives 0. *)
Theorem calculateSize_product_mod (dims d1 d2 : Dims) :
  calculateSize dims = product dims mod 2 ^ 64
  /\ (product dims < 2 ^ 64 -> calculateSize dims = product dims)
  /\ calculateSize [] = 1
  /\ calculateSize (d1 ++ 0 :: d2) = 0.
Proof.
  split; [apply calculateSize_mod|].
  split.
  - intros Hlt. rewrite calculateSize_mod. by apply N.mod_small.
  - split; [reflexivity|].
    rewrite calculateSize_mod, product_app.
    unfold product at 2; simpl. by rewrite N.mul_0_r.
Qed.

Lemma calculateSize_product_mod_witness :
  product [2; 3; 4] < 2 ^ 64 /\ calculateSize [2; 3; 4] = product [2; 3; 4].
Proof.
  split; [reflexivity|].
  apply (calculateSize_product_mod [2; 3; 4] [] []). reflexivity.
Defined.

(** C1 as stated fails once the product leaves [size_t]: two entries
    [2 ^ 32] have product [2 ^ 64], and the code returns 0. *)
Lemma calculateSize_product_overflow :
  calculateSize [4294967296; 4294967296] = 0
  /\ calculateSize [4294967296; 4294967296]
     <> product [4294967296; 4294967296].
Proof. split; [reflexivity|]. vm_compute. discriminate. Qed.

(** ** The signature guard *)

(** C10: [PublicKey::verifySignature] answers [false] at once, with no call
    of [RSA_verify], when the digest is empty, the signature is empty or
    the signature is not [SIGNATURE_SIZE] = 64 bytes long; whenever
    [RSA_verify] is called, all three guards were passed. *)
Theorem verifySignature_guards (this : PublicKey) (messageDigest originalSignature : list Z) :
  (messageDigest = [] \/ originalSignature = []
   \/ length originalSignature <> 64%nat ->
   PublicKey_verifySignature this messageDigest originalSignature = Return false)
  /\ (invokes_RSA_verify
        (PublicKey_verifySignature this messageDigest originalSignature) = true ->
      messageDigest <> [] /\ originalSignature <> []
      /\ length originalSignature = 64%nat).
Proof.
  unfold PublicKey_verifySignature, SIGNATURE_SIZE.
  split.
  - intros [-> | [-> | Hlen]]; [reflexivity | |].
    + by rewrite orb_true_r.
    + destruct (_ || _); [reflexivity|].
      destruct (N.eqb_spec (N.of_nat (length originalSignature)) 64) as [E|E];
        [lia | reflexivity].
  - destruct messageDigest as [|m ms]; [discriminate|].
    destruct originalSignature as [|g gs]; [discriminate|].
    simpl orb. cbv iota.
    destruct (N.eqb_spec (N.of_nat (length (g :: gs))) 64) as [E|E];
      [|discriminate].
    intros _. repeat split; [discriminate | discriminate | lia].
Qed.

Lemma verifySignature_guards_witness :
  PublicKey_verifySignature
    (mkPublicKey (Some (mkPublicKeyImpl (mkRSA 3233 17))))
    [1; 2; 3]%Z [0; 0; 0]%Z = Return false.
Proof.
  apply (verifySignature_guards
           (mkPublicKey (Some (mkPublicKeyImpl (mkRSA 3233 17))))
           [1; 2; 3]%Z [0; 0; 0]%Z).
  right; right. simpl. lia.
Defined.

Section Properties.

Context {T : Type}.
Variable T_neq : T -> T -> bool.

Implicit Types (s : state T) (p q : ptr) (blk : list (cell T)).

#[local] Existing Instance M_ret.
#[local] Existing Instance M_bind.

(** *** The monad *)

Lemma bind_Some {A B} (m : M T A) (k : A -> M T B) s a s1 :
  m s = Some (a, s1) -> bind m k s = k a s1.
Proof. intros H. unfold bind. by rewrite H. Qed.

(** One step of a computation whose first action is known to return. *)
Tactic Notation "mstep" uconstr(H) :=
  unfold mbind, M_bind; rewrite (bind_Some _ _ _ _ _ H).

(** The rule for [for] loops: an invariant of the body holds at exit,
    and the loop has no undefined behaviour if no iteration has. *)
Lemma bind_None_intro {A B} (m : M T A) (k : A -> M T B) s :
  m s = None -> bind m k s = None.
Proof. intros H. unfold bind. by rewrite H. Qed.

Lemma for_loop_inv (I : nat -> state T -> Prop) (body : nat -> M T unit) n i0 s :
  I i0 s ->
  (forall i si, (i0 <= i < i0 + n)%nat -> I i si ->
                exists si', body i si = Some (tt, si') /\ I (S i) si') ->
  exists s', for_loop n i0 body s = Some (tt, s') /\ I (i0 + n)%nat s'.
Proof.
  revert i0 s; induction n as [|n IH]; intros i0 s H0 Hstep; simpl.
  - exists s. by rewrite Nat.add_0_r.
  - destruct (Hstep i0 s) as (s1 & Hb & H1); [lia | done |].
    destruct (IH (S i0) s1) as (s' & Hl & H'); [done | |].
    + intros i si Hi. apply Hstep. lia.
    + exists s'. split.
      * unfold mbind, M_bind. by rewrite (bind_Some _ _ _ _ _ Hb).
      * by replace (i0 + S n)%nat with (S i0 + n)%nat by lia.
Qed.

(** *** Blocks and the primitive operations *)

Lemma block_at_Some s b blk :
  block_at s b = Some blk <-> mem s !! b = Some (Some blk).
Proof.
  unfold block_at. destruct (mem s !! b) as [[?|]|]; split; congruence.
Qed.

Lemma block_at_lt s b blk : block_at s b = Some blk -> (b < length (mem s))%nat.
Proof. rewrite block_at_Some. apply lookup_lt_Some. Qed.

Lemma block_at_ext s s' b : mem s' !! b = mem s !! b -> block_at s' b = block_at s b.
Proof. unfold block_at. by intros ->. Qed.

Lemma load_cell_Some s b o i blk c :
  block_at s b = Some blk -> blk !! (o + i)%nat = Some c ->
  load_cell (Ptr b o) i s = Some (c, s).
Proof. intros Hb Hc. unfold load_cell. by rewrite Hb, Hc. Qed.

Lemma store_cell_Some s b o i blk c :
  block_at s b = Some blk -> (o + i < length blk)%nat ->
  store_cell (Ptr b o) i c s
  = Some (tt, mkState (<[b := Some (<[(o + i)%nat := c]> blk)]> (mem s)) (log s)).
Proof.
  intros Hb Hi. unfold store_cell. rewrite Hb. by rewrite decide_True.
Qed.

Lemma insert_take_drop_step {A} (X Y : list A) i c :
  X !! i = Some c -> (i < length Y)%nat ->
  <[i := c]> (take i X ++ drop i Y) = take (S i) X ++ drop (S i) Y.
Proof.
  intros HX HY.
  assert (Hlen : length (take i X) = i).
  { apply length_take_le. apply lookup_lt_Some in HX. lia. }
  destruct (lookup_lt_is_Some_2 Y i HY) as [y Hy].
  rewrite insert_app_r_alt by lia.
  rewrite Hlen, Nat.sub_diag.
  rewrite (drop_S Y y i Hy). simpl.
  rewrite (take_S_r X i c HX). by rewrite <- app_assoc.
Qed.

Lemma memcpy_loop_spec s bd bs os blkd blks n :
  bd <> bs ->
  block_at s bd = Some blkd -> block_at s bs = Some blks ->
  (n <= length blkd)%nat -> (os + n <= length blks)%nat ->
  exists s', memcpy_loop (Ptr bd 0) (Ptr bs os) n s = Some (tt, s')
    /\ mem s' = <[bd := Some (take n (drop os blks) ++ drop n blkd)]> (mem s)
    /\ log s' = log s.
Proof.
  intros Hne Hd Hs Hn Hsn. unfold memcpy_loop.
  pose (I := fun (i : nat) (si : state T) =>
    mem si = <[bd := Some (take i (drop os blks) ++ drop i blkd)]> (mem s)
    /\ log si = log s).
  destruct (for_loop_inv I
              (fun i => c ← load_cell (Ptr bs os) i; store_cell (Ptr bd 0) i c)
              n 0 s) as (s' & Hrun & Hm & Hl).
  - split; [|done]. simpl. rewrite drop_0.
    symmetry. apply list_insert_id. by apply block_at_Some.
  - intros i si Hi [Hm Hl].
    assert (Hsrc : block_at si bs = Some blks).
    { erewrite block_at_ext; [done|]. rewrite Hm.
      by apply list_lookup_insert_ne. }
    assert (Hdst : block_at si bd
                   = Some (take i (drop os blks) ++ drop i blkd)).
    { apply block_at_Some. rewrite Hm. apply list_lookup_insert_eq.
      by eapply block_at_lt. }
    destruct (lookup_lt_is_Some_2 blks (os + i)) as [c Hc]; [lia|].
    eexists. split.
    + unfold mbind, M_bind.
      mstep ((load_cell_Some _ _ _ _ _ _ Hsrc Hc)).
      apply (store_cell_Some _ _ _ _ _ _ Hdst).
      rewrite length_app, length_take, length_drop, length_drop. lia.
    + split; [|done]. simpl. rewrite Hm, list_insert_insert_eq.
      do 2 f_equal. apply insert_take_drop_step; [|lia].
      by rewrite lookup_drop.
  - exists s'. done.
Qed.

(** [memcpy] into the start of a block, from another block: it has no
    undefined behaviour when both ranges are within their blocks, and
    replaces the first [n] cells of the destination by the source's. *)
Lemma memcpy_spec s bd bs os blkd blks n :
  bd <> bs ->
  block_at s bd = Some blkd -> block_at s bs = Some blks ->
  (n <= length blkd)%nat -> (os + n <= length blks)%nat ->
  exists s', memcpy (Ptr bd 0) (Ptr bs os) n s = Some (tt, s')
    /\ mem s' = <[bd := Some (take n (drop os blks) ++ drop n blkd)]> (mem s)
    /\ log s' = log s.
Proof.
  intros Hne Hd Hs Hn Hsn. unfold memcpy, valid_ptr. rewrite Hd, Hs.
  rewrite !bool_decide_eq_true_2 by lia.
  by apply memcpy_loop_spec.
Qed.

Lemma memcpy_None (dst src : ptr) n s :
  memcpy_loop dst src n s = None -> memcpy dst src n s = None.
Proof. intros H. unfold memcpy. by destruct (_ && _). Qed.

(** A block below the allocation point is still there, unchanged, after
    [new_array]. *)
Lemma new_array_spec s n :
  new_array n s
  = Some (Ptr (length (mem s)) 0,
          mkState (mem s ++ [Some (replicate n None)])
                  (log s ++ [EvNew (length (mem s)) n])).
Proof. reflexivity. Qed.

Lemma block_at_app_l s s' b l :
  mem s' = mem s ++ l -> (b < length (mem s))%nat ->
  block_at s' b = block_at s b.
Proof.
  intros Hm Hb. apply block_at_ext. rewrite Hm. by apply lookup_app_l.
Qed.

Lemma block_at_app_new s s' l blk :
  mem s' = mem s ++ Some blk :: l -> block_at s' (length (mem s)) = Some blk.
Proof.
  intros Hm. apply block_at_Some. rewrite Hm.
  by rewrite lookup_app_r, Nat.sub_diag by lia.
Qed.

Lemma cells_at_Some s b o n cs :
  cells_at s (Ptr b o) n = Some cs <->
  exists blk, block_at s b = Some blk /\ (o + n <= length blk)%nat
              /\ cs = take n (drop o blk).
Proof.
  unfold cells_at. split.
  - destruct (block_at s b) as [blk|]; [|done].
    case_decide; [|done]. intros [= <-]. by exists blk.
  - intros (blk & -> & Hle & ->). by rewrite decide_True.
Qed.

Lemma cells_at_ext s s' p n :
  (forall b o, p = Ptr b o -> mem s' !! b = mem s !! b) ->
  cells_at s' p n = cells_at s p n.
Proof.
  intros H. destruct p as [|b o]; [done|].
  unfold cells_at. by rewrite (block_at_ext s s' b (H b o eq_refl)).
Qed.

(** *** What the caller does afterwards *)

Lemma run_mutation_frame (m : mutation T) s s' b :
  run_mutation m s = Some (tt, s') -> mutation_block m <> Some b ->
  mem s' !! b = mem s !! b.
Proof.
  destruct m as [[|b' o] i c|[|b' o]]; simpl; intros Hrun Hb; try done.
  - unfold store_cell in Hrun. destruct (block_at s b'); [|done].
    case_decide; [|done]. injection Hrun as <-. simpl.
    apply list_lookup_insert_ne. congruence.
  - by injection Hrun as <-.
  - unfold delete_array in Hrun.
    destruct o; [|done]. destruct (block_at s b'); [|done].
    injection Hrun as <-. simpl.
    apply list_lookup_insert_ne. congruence.
Qed.

Lemma run_mutations_frame (ms : list (mutation T)) s s' b :
  run_mutations ms s = Some (tt, s') ->
  Forall (fun m => mutation_block m <> Some b) ms ->
  mem s' !! b = mem s !! b.
Proof.
  revert s; induction ms as [|m ms IH]; intros s Hrun Hall; simpl in Hrun.
  - by injection Hrun as <-.
  - inversion Hall as [|? ? Hm Hms]; subst.
    unfold mbind, M_bind, bind in Hrun.
    destruct (run_mutation m s) as [[[] s1]|] eqn:E; [|done].
    rewrite (IH s1 Hrun Hms). by eapply run_mutation_frame.
Qed.

Lemma mutation_below_ne nb (ms : list (mutation T)) b :
  Forall (mutation_below nb) ms -> (nb <= b)%nat ->
  Forall (fun m => mutation_block m <> Some b) ms.
Proof.
  intros Hall Hb. eapply List.Forall_impl; [|exact Hall].
  intros m Hm. unfold mutation_below in Hm.
  destruct (mutation_block m); [|done]. intros [= ->]. lia.
Qed.

(** *** Deep copy, primary template *)

(** [CopyPolicy<T>::copy] from [size] cells that lie within a live block:
    one fresh block, holding exactly those cells. *)
Lemma CopyPolicy_copy_spec s b o blk (size : N) :
  block_at s b = Some blk -> (o + N.to_nat size <= length blk)%nat ->
  exists s', CopyPolicy_copy (Ptr b o) size s = Some (Ptr (length (mem s)) 0, s')
    /\ mem s' = mem s ++ [Some (take (N.to_nat size) (drop o blk))]
    /\ log s' = log s ++ [EvNew (length (mem s)) (N.to_nat size)].
Proof.
  intros Hb Hle. unfold CopyPolicy_copy, mbind, M_bind.
  mstep ((new_array_spec s _)).
  set (n := N.to_nat size) in *. set (nb := length (mem s)).
  set (s1 := mkState _ _).
  pose proof (block_at_lt _ _ _ Hb) as Hlt.
  destruct (memcpy_spec s1 nb b o (replicate n None) blk n)
    as (s' & Hrun & Hm & Hl).
  - unfold nb. lia.
  - by apply (block_at_app_new s s1 []).
  - by rewrite (block_at_app_l s s1 b [Some (replicate n None)]).
  - by rewrite length_replicate.
  - done.
  - exists s'. mstep Hrun. split; [done|].
    split; [|done]. rewrite Hm. simpl.
    rewrite drop_replicate, Nat.sub_diag, app_nil_r. simpl.
    replace nb with (length (mem s) + 0)%nat by (unfold nb; lia).
    by rewrite insert_app_r.
Qed.

(** An array built with the deep-copy policy (primary template) from
    [size] cells of a live block holds those cells in a block of its own;
    the source is left as it was, and whatever the caller then stores into
    or deletes of the blocks that existed before the construction, the
    source among them, the array's contents stay what the source held at
    construction. *)
Lemma CopyPolicy_pod_deep_copy s b o (dims : Dims) (src : list (cell T)) :
  cells_at s (Ptr b o) (N.to_nat (calculateSize dims)) = Some src ->
  exists a s',
    ArrayImpl_ctor CopyPolicy TPod (Ptr b o) dims s = Some (a, s')
    /\ ptr_ (impl_array a) = Ptr (length (mem s)) 0
    /\ array_contents s' a = Some src
    /\ cells_at s' (Ptr b o) (N.to_nat (calculateSize dims)) = Some src
    /\ forall (ms : list (mutation T)) s'',
         Forall (mutation_below (length (mem s))) ms ->
         run_mutations ms s' = Some (tt, s'') ->
         array_contents s'' a = Some src.
Proof.
  intros Hsrc. apply cells_at_Some in Hsrc as (blk & Hb & Hle & ->).
  destruct (CopyPolicy_copy_spec s b o blk (calculateSize dims) Hb Hle)
    as (s' & Hrun & Hm & _).
  set (n := N.to_nat (calculateSize dims)) in *.
  pose proof (block_at_lt _ _ _ Hb) as Hlt.
  assert (Hnew : cells_at s' (Ptr (length (mem s)) 0) n
                 = Some (take n (drop o blk))).
  { apply cells_at_Some. eexists. split; [by eapply block_at_app_new|].
    rewrite length_take, length_drop. split; [lia|].
    rewrite drop_0. symmetry. apply take_ge.
    rewrite length_take, length_drop. lia. }
  eexists _, s'. split.
  { unfold ArrayImpl_ctor, mbind, M_bind. simpl policy_copy.
    by rewrite (bind_Some _ _ _ _ _ Hrun). }
  split; [done|]. split; [exact Hnew|]. split.
  - apply cells_at_Some. exists blk. split; [|done].
    by rewrite (block_at_app_l s s' b _ Hm).
  - intros ms s'' Hall Hms.
    unfold array_contents, Array_ctor. cbn [impl_array ptr_ size_].
    fold n. rewrite <- Hnew. apply cells_at_ext. intros b' o' [= <- <-].
    eapply run_mutations_frame; [done|].
    by eapply mutation_below_ne.
Qed.

(** *** C strings *)

(** The string found depends on the cells up to its terminator only, and
    those cells are the string's representation. *)
Lemma cstr_of_cells_prefix (l : list (cell T)) : forall str,
  cstr_of_cells l = Some str ->
  (S (length str) <= length l)%nat
  /\ take (S (length str)) l = cstring str
  /\ forall l', take (S (length str)) l' = take (S (length str)) l ->
                cstr_of_cells l' = Some str.
Proof.
  induction l as [|c l IH]; intros str H; simpl in H; [done|].
  destruct c as [[t|c|q]|]; try done.
  destruct (Ascii.eqb c NUL) eqn:Ec.
  - injection H as <-. apply Ascii.eqb_eq in Ec as ->.
    split; [simpl; lia|]. split; [done|].
    intros [|c' l'] Hl'; [done|]. simpl in Hl'. injection Hl' as ->.
    by simpl.
  - destruct (cstr_of_cells l) as [str'|] eqn:E; [|done].
    injection H as <-. destruct (IH str' eq_refl) as (Hlen & Htake & Hpre).
    split; [simpl; lia|]. split.
    + change (take (S (length (c :: str'))) (Some (VChar c) :: l))
        with (Some (VChar c) :: take (S (length str')) l).
      by rewrite Htake.
    + intros [|c' l'] Hl'; [done|].
      change (take (S (length (c :: str'))) (c' :: l'))
        with (c' :: take (S (length str')) l') in Hl'.
      change (take (S (length (c :: str'))) (Some (VChar c) :: l))
        with (Some (VChar c) :: take (S (length str')) l) in Hl'.
      injection Hl' as -> Hl'. simpl. rewrite Ec.
      by rewrite (Hpre l' Hl').
Qed.

Lemma length_cstring (str : list ascii) :
  length (cstring (T:=T) str) = S (length str).
Proof. unfold cstring. rewrite length_app, length_map. simpl. lia. Qed.

Lemma read_string_Some s b o str :
  read_string s (Ptr b o) = Some str ->
  exists blk, block_at s b = Some blk
    /\ (o + S (length str) <= length blk)%nat
    /\ take (S (length str)) (drop o blk) = cstring str.
Proof.
  unfold read_string. destruct (block_at s b) as [blk|]; [|done].
  intros H. apply cstr_of_cells_prefix in H as (Hlen & Htake & _).
  exists blk. rewrite length_drop in Hlen. split; [done|]. split; [lia|done].
Qed.

Lemma read_string_ext s s' p :
  (forall b o, p = Ptr b o -> mem s' !! b = mem s !! b) ->
  read_string s' p = read_string s p.
Proof.
  intros H. destruct p as [|b o]; [done|].
  unfold read_string. by rewrite (block_at_ext s s' b (H b o eq_refl)).
Qed.

(** A block that starts with the representation of [str] reads as [str],
    provided [str] is a string some terminated buffer holds. *)
Lemma read_string_cstring s s' p b' str rest :
  read_string s p = Some str ->
  block_at s' b' = Some (cstring str ++ rest) ->
  read_string s' (Ptr b' 0) = Some str.
Proof.
  intros Hp Hb'. destruct p as [|b o]; [done|].
  unfold read_string in *. rewrite Hb'.
  destruct (block_at s b) as [blk|]; [|done].
  apply cstr_of_cells_prefix in Hp as (_ & Htake & Hpre).
  apply Hpre. rewrite drop_0, Htake.
  apply take_app_length'. by rewrite length_cstring.
Qed.

(** [strcpy] into the start of a block that has room, from a terminated
    string in another block. *)
Lemma strcpy_spec s bd bs os blkd str :
  bd <> bs ->
  block_at s bd = Some blkd ->
  read_string s (Ptr bs os) = Some str ->
  (S (length str) <= length blkd)%nat ->
  exists s', strcpy (Ptr bd 0) (Ptr bs os) s = Some (tt, s')
    /\ mem s' = <[bd := Some (cstring str ++ drop (S (length str)) blkd)]> (mem s)
    /\ log s' = log s.
Proof.
  intros Hne Hd Hstr Hroom. unfold strcpy. rewrite Hstr.
  apply read_string_Some in Hstr as (blks & Hs & Hle & Htake).
  destruct (memcpy_spec s bd bs os blkd blks (S (length str)))
    as (s' & Hrun & Hm & Hl); try done.
  exists s'. by rewrite <- Htake.
Qed.

(** *** Deep copy of a text buffer *)

(** C7, as the code has it: [CopyPolicy<char>::copy] reserves [size + 1]
    units, [size] being the element count it is given, and copies the
    string up to and including its terminator, that is [length + 1] units.
    When the string is no longer than the count, the result is a fresh
    block that starts with the string and its terminator (the remaining
    units are uninitialised), the source is unchanged, and what the caller
    later does to the source or any other block that existed before does
    not change the copy. *)
Theorem CopyPolicy_char_copy_spec s b o (str : list ascii) (size : N) :
  read_string s (Ptr b o) = Some str ->
  (N.of_nat (length str) <= size)%N ->
  (size + 1 < 2 ^ 64)%N ->
  exists s',
    CopyPolicy_char_copy (Ptr b o) size s = Some (Ptr (length (mem s)) 0, s')
    /\ mem s' = mem s ++ [Some (cstring str
                   ++ replicate (N.to_nat size - length str) None)]
    /\ read_string s' (Ptr (length (mem s)) 0) = Some str
    /\ read_string s' (Ptr b o) = Some str
    /\ forall (ms : list (mutation T)) s'',
         Forall (mutation_below (length (mem s))) ms ->
         run_mutations ms s' = Some (tt, s'') ->
         read_string s'' (Ptr (length (mem s)) 0) = Some str
         /\ cells_at s'' (Ptr (length (mem s)) 0) (S (length str))
            = Some (cstring str).
Proof.
  intros Hstr Hlen Hsize.
  unfold CopyPolicy_char_copy, mbind, M_bind.
  mstep ((new_array_spec s _)).
  assert (Hn : N.to_nat (size_add size 1) = S (N.to_nat size)).
  { unfold size_add, SIZE_MODULUS. rewrite N.mod_small by done. lia. }
  rewrite Hn. set (n := N.to_nat size) in *. set (nb := length (mem s)).
  set (s1 := mkState _ _).
  destruct (read_string_Some _ _ _ _ Hstr) as (blk & Hb & _ & _).
  pose proof (block_at_lt _ _ _ Hb) as Hlt.
  assert (Hstr1 : read_string s1 (Ptr b o) = Some str).
  { rewrite <- Hstr. apply read_string_ext. intros ? ? [= <- <-].
    simpl. by apply lookup_app_l. }
  destruct (strcpy_spec s1 nb b o (replicate (S n) None) str)
    as (s' & Hrun & Hm & Hl).
  - unfold nb. lia.
  - by apply (block_at_app_new s s1 []).
  - done.
  - rewrite length_replicate. lia.
  - assert (Hmem : mem s' = mem s ++ [Some (cstring str
                      ++ replicate (n - length str) None)]).
    { rewrite Hm. simpl. rewrite drop_replicate.
      replace (S n - S (length str))%nat with (n - length str)%nat by lia.
      replace nb with (length (mem s) + 0)%nat by (unfold nb; lia).
      by rewrite insert_app_r. }
    assert (Hnew : block_at s' nb = Some (cstring str
                      ++ replicate (n - length str) None)).
    { by apply (block_at_app_new s s' []). }
    exists s'. mstep Hrun.
    split; [done|]. split; [done|]. split.
    { by eapply read_string_cstring. }
    split.
    { rewrite <- Hstr. apply read_string_ext. intros ? ? [= <- <-].
      rewrite Hmem. by apply lookup_app_l. }
    intros ms s'' Hall Hms.
    assert (Hnew' : block_at s'' nb = Some (cstring str
                      ++ replicate (n - length str) None)).
    { rewrite <- Hnew. apply block_at_ext.
      eapply run_mutations_frame; [done|]. by eapply mutation_below_ne. }
    split.
    { by eapply read_string_cstring. }
    apply cells_at_Some. eexists. split; [done|].
    rewrite length_app, length_cstring. split; [lia|].
    rewrite drop_0. symmetry. apply take_app_length'.
    by rewrite length_cstring.
Qed.

(** *** Deep copy of an array of strings *)

Lemma strings_at_length s p n strs :
  strings_at s p n = Some strs -> length strs = n.
Proof.
  unfold strings_at. destruct p as [|b o]; [done|].
  destruct (cells_at s (Ptr b o) n) as [cs|] eqn:E; [|done].
  intros H. apply length_mapM in H. rewrite <- H.
  apply cells_at_Some in E as (blk & _ & Hle & ->).
  rewrite length_take, length_drop. lia.
Qed.

(** Element [i] of a readable array of strings is a handle to a terminated
    string in a live block, and stays so in any state that only has more
    blocks. *)
Lemma strings_at_load s s' l p n strs i str :
  strings_at s p n = Some strs -> strs !! i = Some str ->
  mem s' = mem s ++ l ->
  exists bq oq,
    load_ptr p i s' = Some (Ptr bq oq, s')
    /\ read_string s (Ptr bq oq) = Some str
    /\ read_string s' (Ptr bq oq) = Some str
    /\ (bq < length (mem s))%nat.
Proof.
  intros Hs Hi Hm. pose proof (strings_at_length _ _ _ _ Hs) as Hlen.
  pose proof (lookup_lt_Some _ _ _ Hi) as Hlt.
  unfold strings_at in Hs. destruct p as [|b o]; [done|].
  destruct (cells_at s (Ptr b o) n) as [cs|] eqn:E; [|done].
  apply cells_at_Some in E as (blk & Hb & Hle & ->).
  apply mapM_Some in Hs.
  destruct (Forall2_lookup_r _ _ _ _ _ Hs Hi) as (c & Hc & Hstr).
  rewrite lookup_take_lt, lookup_drop in Hc by lia.
  destruct c as [[t|c|[|bq oq]]|]; try done.
  change (read_string s (Ptr bq oq) = Some str) in Hstr.
  destruct (read_string_Some _ _ _ _ Hstr) as (blkq & Hbq & _ & _).
  pose proof (block_at_lt _ _ _ Hbq) as Hq.
  pose proof (block_at_lt _ _ _ Hb) as Hbl.
  exists bq, oq. split; [|split; [done|split; [|done]]].
  - assert (Hb' : block_at s' b = Some blk)
      by by rewrite (block_at_app_l s s' b l).
    unfold load_ptr, load, mbind, M_bind.
    rewrite (bind_Some _ _ _ _ _
               (bind_Some _ _ _ _ _ (load_cell_Some _ _ _ _ _ _ Hb' Hc))).
    reflexivity.
  - rewrite <- Hstr. apply read_string_ext. intros ? ? [= <- <-].
    rewrite Hm. by apply lookup_app_l.
Qed.

Lemma string_handles_lookup nb n i :
  (i < n)%nat ->
  string_handles (T:=T) nb n !! i = Some (Some (VPtr (Ptr (nb + 1 + i) 0))).
Proof.
  intros Hi. unfold string_handles.
  by rewrite list_lookup_fmap, lookup_seq_lt.
Qed.

Lemma length_string_handles nb n : length (string_handles (T:=T) nb n) = n.
Proof. unfold string_handles. by rewrite length_fmap, length_seq. Qed.

Lemma load_ptr_Some s b o i blk q :
  block_at s b = Some blk -> blk !! (o + i)%nat = Some (Some (VPtr q)) ->
  load_ptr (Ptr b o) i s = Some (q, s).
Proof.
  intros Hb Hc. unfold load_ptr, load, mbind, M_bind.
  by rewrite (bind_Some _ _ _ _ _
                (bind_Some _ _ _ _ _ (load_cell_Some _ _ _ _ _ _ Hb Hc))).
Qed.

Lemma insert_middle {A} (l1 l2 : list A) x y :
  <[length l1 := y]> (l1 ++ x :: l2) = l1 ++ y :: l2.
Proof.
  replace (length l1) with (length l1 + 0)%nat by lia.
  by rewrite insert_app_r.
Qed.

Lemma strlen_Some s q str :
  read_string s q = Some str -> (N.of_nat (length str) + 1 < 2 ^ 64)%N ->
  strlen q s = Some (N.of_nat (length str), s)
  /\ N.to_nat (size_add (N.of_nat (length str)) 1) = S (length str).
Proof.
  intros Hq Hfit. unfold strlen, size_add, SIZE_MODULUS. rewrite Hq.
  rewrite !N.mod_small by lia. split; [done | lia].
Qed.

(** [CopyPolicy<char *>::copy] of [size] handles to terminated strings:
    [size + 1] fresh blocks, the first with the new handles, the others
    with one string each; nothing else changes. *)
Lemma CopyPolicy_charptr_copy_spec s b o (size : N) (strs : list (list ascii)) :
  strings_at s (Ptr b o) (N.to_nat size) = Some strs ->
  Forall (fun str => (N.of_nat (length str) + 1 < 2 ^ 64)%N) strs ->
  exists s',
    CopyPolicy_charptr_copy (Ptr b o) size s = Some (Ptr (length (mem s)) 0, s')
    /\ mem s' = mem s ++ Some (string_handles (length (mem s)) (N.to_nat size))
                  :: ((fun str => Some (cstring str)) <$> strs).
Proof.
  intros Hs Hfit. pose proof (strings_at_length _ _ _ _ Hs) as Hlen.
  unfold CopyPolicy_charptr_copy, mbind, M_bind.
  mstep ((new_array_spec s _)).
  set (n := N.to_nat size) in *. set (nb := length (mem s)).
  set (s1 := mkState _ _).
  pose (I := fun (i : nat) (si : state T) =>
    mem si = mem s
      ++ Some (take i (string_handles nb n) ++ drop i (replicate n None))
      :: ((fun str => Some (cstring str)) <$> take i strs)).
  match goal with
  | |- context [for_loop ?k ?i0 ?body] =>
      destruct (for_loop_inv I body k i0 s1) as (s' & Hrun & Hinv)
  end.
  - unfold I. simpl. by rewrite drop_0.
  - intros i si Hi Hinv. unfold I in Hinv.
    destruct (lookup_lt_is_Some_2 strs i) as [str Hstr]; [lia|].
    set (Hcur := take i (string_handles nb n) ++ drop i (replicate n None)) in *.
    set (Hnext := take (S i) (string_handles (T:=T) nb n)
                  ++ drop (S i) (replicate n None)).
    set (Ss := (fun str => Some (cstring str)) <$> take i strs) in *.
    assert (Hnexteq : <[i := Some (VPtr (Ptr (nb + 1 + i) 0))]> Hcur = Hnext).
    { apply insert_take_drop_step.
      - apply string_handles_lookup. lia.
      - rewrite length_replicate. lia. }
    assert (Hlensi : length (mem si) = (nb + 1 + i)%nat).
    { rewrite Hinv, length_app. simpl. unfold Ss.
      rewrite length_fmap, length_take. unfold nb. lia. }
    assert (Hfit1 : (N.of_nat (length str) + 1 < 2 ^ 64)%N).
    { by eapply (Forall_lookup_1 _ _ _ _ Hfit). }
    (* src_i = ptr[i]; len = strlen(src_i) *)
    destruct (strings_at_load s si _ _ _ _ i str Hs Hstr Hinv)
      as (bq & oq & Hload & Hrs & Hrsi & Hbq).
    mstep Hload.
    destruct (strlen_Some si _ str Hrsi Hfit1) as [Hstrlen Hsz].
    mstep Hstrlen.
    (* copy_i = new char[len + 1] *)
    mstep ((new_array_spec si _)).
    rewrite Hsz, Hlensi.
    set (R := replicate (S (length str)) None).
    set (s2 := mkState _ _).
    assert (Hm2 : mem s2 = mem s ++ Some Hcur :: (Ss ++ [Some R])).
    { unfold s2. simpl. rewrite Hinv. by rewrite <- app_assoc. }
    (* copy[i] = copy_i *)
    assert (Hb2 : block_at s2 nb = Some Hcur).
    { apply block_at_Some. rewrite Hm2. by apply list_lookup_middle. }
    assert (Hi2 : (0 + i < length Hcur)%nat).
    { unfold Hcur. rewrite length_app, length_take, length_drop,
        length_string_handles, length_replicate. lia. }
    mstep ((store_cell_Some _ _ _ _ _ _ Hb2 Hi2)).
    set (s3 := mkState _ _).
    assert (Hm3 : mem s3 = mem s ++ Some Hnext :: (Ss ++ [Some R])).
    { unfold s3. cbn [mem]. rewrite Hm2. cbn [Nat.add].
      rewrite <- Hnexteq. apply insert_middle. }
    (* strcpy(copy[i], ptr[i]) *)
    assert (Hb3 : block_at s3 nb = Some Hnext).
    { apply block_at_Some. rewrite Hm3. by apply list_lookup_middle. }
    assert (Hh3 : Hnext !! (0 + i)%nat
                  = Some (Some (VPtr (Ptr (nb + 1 + i) 0)))).
    { rewrite <- Hnexteq. apply list_lookup_insert_eq. simpl in Hi2. done. }
    mstep ((load_ptr_Some _ _ _ _ _ _ Hb3 Hh3)).
    destruct (strings_at_load s s3 _ _ _ _ i str Hs Hstr Hm3)
      as (bq' & oq' & Hload' & _ & Hrs3 & Hbq').
    mstep Hload'.
    assert (Hm3' : mem s3 = (mem s ++ Some Hnext :: Ss) ++ [Some R]).
    { rewrite Hm3. by rewrite <- app_assoc. }
    assert (Hlen3 : length (mem s ++ Some Hnext :: Ss) = (nb + 1 + i)%nat).
    { rewrite length_app. simpl. unfold Ss.
      rewrite length_fmap, length_take. unfold nb. lia. }
    destruct (strcpy_spec s3 (nb + 1 + i) bq' oq' R str)
      as (s4 & Hrun4 & Hm4 & _).
    + lia.
    + apply block_at_Some. rewrite Hm3'. by apply list_lookup_middle.
    + done.
    + unfold R. by rewrite length_replicate.
    + exists s4. split; [done|]. unfold I. rewrite Hm4, Hm3'.
      rewrite <- Hlen3, insert_middle. fold Hnext.
      unfold R. rewrite drop_replicate, Nat.sub_diag. simpl replicate.
      rewrite app_nil_r, <- app_assoc. simpl. do 2 f_equal.
      unfold Ss. rewrite (take_S_r _ _ _ Hstr). by rewrite fmap_app.
  - exists s'. mstep Hrun. split; [done|].
    unfold I in Hinv. simpl in Hinv. rewrite Hinv.
    rewrite (take_ge (string_handles nb n)) by (rewrite length_string_handles; lia).
    rewrite drop_replicate, Nat.sub_diag. simpl replicate.
    rewrite app_nil_r. by rewrite take_ge by lia.
Qed.

Lemma strings_at_valid s p n strs :
  strings_at s p n = Some strs ->
  Forall (fun str => exists q, read_string s q = Some str) strs.
Proof.
  intros Hs. apply Forall_lookup_2. intros i str Hi.
  destruct (strings_at_load s s [] p n strs i str Hs Hi)
    as (bq & oq & _ & Hq & _); [by rewrite app_nil_r|].
  by exists (Ptr bq oq).
Qed.

Lemma strings_copy_at_intro s s' n strs :
  mem s' = mem s ++ Some (string_handles (length (mem s)) n)
             :: ((fun str => Some (cstring str)) <$> strs) ->
  length strs = n ->
  strings_copy_at s' (length (mem s)) strs.
Proof.
  intros Hm <-. split.
  - by eapply block_at_app_new.
  - intros i str Hi. apply block_at_Some. rewrite Hm.
    rewrite lookup_app_r by lia.
    replace (length (mem s) + 1 + i - length (mem s))%nat with (S i) by lia.
    simpl. by rewrite list_lookup_fmap, Hi.
Qed.

Lemma strings_copy_at_frame s s' nb strs :
  strings_copy_at s nb strs ->
  (forall b, (nb <= b)%nat -> mem s' !! b = mem s !! b) ->
  strings_copy_at s' nb strs.
Proof.
  intros [Hh Hstrs] Hframe. split.
  - rewrite <- Hh. apply block_at_ext, Hframe. lia.
  - intros i str Hi. rewrite <- (Hstrs i str Hi).
    apply block_at_ext, Hframe. lia.
Qed.

Lemma strings_copy_at_read s nb strs :
  strings_copy_at s nb strs ->
  Forall (fun str => exists s0 q, read_string s0 q = Some str) strs ->
  strings_at s (Ptr nb 0) (length strs) = Some strs.
Proof.
  intros [Hh Hstrs] Hvalid. unfold strings_at.
  assert (Hcells : cells_at s (Ptr nb 0) (length strs)
                   = Some (string_handles nb (length strs))).
  { apply cells_at_Some. eexists. split; [done|].
    rewrite length_string_handles. split; [lia|].
    rewrite drop_0. symmetry. apply take_ge.
    by rewrite length_string_handles. }
  rewrite Hcells. apply mapM_Some.
  apply Forall2_same_length_lookup_2.
  { by rewrite length_string_handles. }
  intros i c str Hc Hi.
  pose proof (lookup_lt_Some _ _ _ Hi) as Hlt.
  rewrite string_handles_lookup in Hc by done. injection Hc as <-.
  destruct (Forall_lookup_1 _ _ _ _ Hvalid Hi) as (s0 & q & Hq).
  simpl. eapply (read_string_cstring s0 s q _ str []); [done|].
  rewrite app_nil_r. by apply Hstrs.
Qed.

Lemma delete_array_Some s b blk :
  block_at s b = Some blk ->
  delete_array (Ptr b 0) s
  = Some (tt, mkState (<[b := None]> (mem s)) (log s ++ [EvDelete b])).
Proof. intros Hb. unfold delete_array. by rewrite Hb. Qed.

(** The loop of the [char *] destructors on a deep copy: the strings are
    deleted in index order, the handle block is still live afterwards. *)
Lemma delete_strings_spec s nb strs (size : N) :
  strings_copy_at s nb strs -> N.to_nat size = length strs ->
  exists s', delete_strings (Ptr nb 0) size s = Some (tt, s')
    /\ log s' = log s ++ (EvDelete <$> seq (nb + 1) (length strs))
    /\ (forall b, (b <= nb \/ nb + 1 + length strs <= b)%nat ->
                  mem s' !! b = mem s !! b)
    /\ (forall j, (j < length strs)%nat -> mem s' !! (nb + 1 + j)%nat = Some None).
Proof.
  intros [Hh Hstrs] Hsize. unfold delete_strings. rewrite Hsize.
  pose (I := fun (i : nat) (si : state T) =>
    log si = log s ++ (EvDelete <$> seq (nb + 1) i)
    /\ (forall b, (b <= nb \/ nb + 1 + i <= b)%nat -> mem si !! b = mem s !! b)
    /\ (forall j, (j < i)%nat -> mem si !! (nb + 1 + j)%nat = Some None)).
  match goal with
  | |- context [for_loop ?k ?i0 ?body] =>
      destruct (for_loop_inv I body k i0 s) as (s' & Hrun & Hl & Hf & Hd)
  end.
  - split; [|split].
    + simpl. by rewrite app_nil_r.
    + done.
    + intros j Hj. lia.
  - intros i si Hi (Hl & Hf & Hd).
    destruct (lookup_lt_is_Some_2 strs i) as [str Hstr]; [lia|].
    assert (Hbh : block_at si nb = Some (string_handles nb (length strs))).
    { rewrite <- Hh. apply block_at_ext, Hf. lia. }
    assert (Hbs : block_at si (nb + 1 + i) = Some (cstring str)).
    { rewrite <- (Hstrs i str Hstr). apply block_at_ext, Hf. lia. }
    pose proof (block_at_lt _ _ _ Hbs) as Hlt.
    assert (Hhi : string_handles (T:=T) nb (length strs) !! (0 + i)%nat
                  = Some (Some (VPtr (Ptr (nb + 1 + i) 0)))).
    { apply string_handles_lookup. lia. }
    eexists. split.
    { unfold mbind, M_bind.
      mstep ((load_ptr_Some _ _ _ _ _ _ Hbh Hhi)).
      by apply (delete_array_Some _ _ _ Hbs). }
    split; [|split]; cbn [log mem].
    + by rewrite Hl, seq_S, fmap_app, <- app_assoc.
    + intros b' Hb'. rewrite list_lookup_insert_ne by lia. apply Hf. lia.
    + intros j Hj. destruct (decide (j = i)) as [->|Hji].
      * by apply list_lookup_insert_eq.
      * rewrite list_lookup_insert_ne by lia. apply Hd. lia.
  - exists s'. done.
Qed.

(** [CopyPolicy<char *>::destroy] on a deep copy: every string is deleted,
    then the handle block, and nothing else. *)
Lemma CopyPolicy_charptr_destroy_spec s nb strs (size : N) :
  strings_copy_at s nb strs -> N.to_nat size = length strs ->
  exists s', CopyPolicy_charptr_destroy (Ptr nb 0) size s = Some (tt, s')
    /\ log s' = log s ++ (EvDelete <$> seq (nb + 1) (length strs))
                  ++ [EvDelete nb]
    /\ (forall b, (b < nb \/ nb + 1 + length strs <= b)%nat ->
                  mem s' !! b = mem s !! b)
    /\ (forall j, (j <= length strs)%nat -> block_at s' (nb + j) = None).
Proof.
  intros Hcopy Hsize.
  destruct (delete_strings_spec s nb strs size Hcopy Hsize)
    as (s1 & Hrun & Hl & Hf & Hd).
  destruct Hcopy as [Hh Hstrs].
  assert (Hbh : block_at s1 nb = Some (string_handles nb (length strs))).
  { rewrite <- Hh. apply block_at_ext, Hf. lia. }
  pose proof (block_at_lt _ _ _ Hbh) as Hlt.
  eexists. split.
  { unfold CopyPolicy_charptr_destroy.
    change (negb (ptr_eqb Null (Ptr nb 0))) with true. cbv iota.
    unfold mbind, M_bind. mstep Hrun.
    by apply (delete_array_Some _ _ _ Hbh). }
  simpl. split; [|split].
  - by rewrite Hl, <- app_assoc.
  - intros b Hb. rewrite list_lookup_insert_ne by lia. apply Hf. lia.
  - intros j Hj. unfold block_at. simpl.
    destruct (decide (j = 0)%nat) as [->|Hj0].
    + by rewrite Nat.add_0_r, list_lookup_insert_eq.
    + rewrite list_lookup_insert_ne by lia.
      replace (nb + j)%nat with (nb + 1 + (j - 1))%nat by lia.
      by rewrite Hd by lia.
Qed.

Lemma strings_at_app s s' l p n strs :
  mem s' = mem s ++ l ->
  strings_at s p n = Some strs -> strings_at s' p n = Some strs.
Proof.
  intros Hm Hs. unfold strings_at in *. destruct p as [|b o]; [done|].
  destruct (cells_at s (Ptr b o) n) as [cs|] eqn:E; [|done].
  assert (E' : cells_at s' (Ptr b o) n = Some cs).
  { rewrite <- E. apply cells_at_ext. intros ? ? [= <- <-].
    apply cells_at_Some in E as (blk & Hb & _).
    rewrite Hm. apply lookup_app_l. by eapply block_at_lt. }
  rewrite E'. apply mapM_Some. apply mapM_Some in Hs.
  eapply List.Forall2_impl; [|exact Hs].
  intros c str Hc. destruct c as [[t|c|[|bq oq]]|]; try done.
  change (read_string s (Ptr bq oq) = Some str) in Hc.
  change (read_string s' (Ptr bq oq) = Some str).
  rewrite <- Hc. apply read_string_ext. intros ? ? [= <- <-].
  apply read_string_Some in Hc as (blk & Hb & _).
  rewrite Hm. apply lookup_app_l. by eapply block_at_lt.
Qed.

(** C8: [CopyPolicy<char *>::copy] of an array of [size] handles to
    terminated strings allocates a block for the handles and, for each
    string, a block of its own that holds the string and its terminator;
    the source is unchanged.  Whatever the caller then stores into or
    deletes of the blocks that existed before (the source array and the
    source strings among them), the copy still reads as the same strings,
    and [CopyPolicy<char *>::destroy] on it deletes each string, in index
    order, then the handle block, and touches no earlier block. *)
Theorem CopyPolicy_charptr_deep_copy s b o (size : N) (strs : list (list ascii)) :
  strings_at s (Ptr b o) (N.to_nat size) = Some strs ->
  Forall (fun str => (N.of_nat (length str) + 1 < 2 ^ 64)%N) strs ->
  exists s',
    CopyPolicy_charptr_copy (Ptr b o) size s = Some (Ptr (length (mem s)) 0, s')
    /\ mem s' = mem s ++ Some (string_handles (length (mem s)) (N.to_nat size))
                  :: ((fun str => Some (cstring str)) <$> strs)
    /\ strings_at s' (Ptr (length (mem s)) 0) (N.to_nat size) = Some strs
    /\ strings_at s' (Ptr b o) (N.to_nat size) = Some strs
    /\ forall (ms : list (mutation T)) s'',
         Forall (mutation_below (length (mem s))) ms ->
         run_mutations ms s' = Some (tt, s'') ->
         strings_at s'' (Ptr (length (mem s)) 0) (N.to_nat size) = Some strs
         /\ exists s_end,
              CopyPolicy_charptr_destroy (Ptr (length (mem s)) 0) size s''
              = Some (tt, s_end)
              /\ log s_end
                 = log s'' ++ (EvDelete <$> seq (length (mem s) + 1) (N.to_nat size))
                     ++ [EvDelete (length (mem s))]
              /\ (forall j, (j <= N.to_nat size)%nat ->
                            block_at s_end (length (mem s) + j) = None)
              /\ (forall b', (b' < length (mem s))%nat ->
                             mem s_end !! b' = mem s'' !! b').
Proof.
  intros Hs Hfit. pose proof (strings_at_length _ _ _ _ Hs) as Hlen.
  destruct (CopyPolicy_charptr_copy_spec s b o size strs Hs Hfit)
    as (s' & Hrun & Hm).
  set (nb := length (mem s)) in *. set (n := N.to_nat size) in *.
  pose proof (strings_copy_at_intro s s' n strs Hm Hlen) as Hcopy.
  fold nb in Hcopy.
  assert (Hvalid : Forall (fun str => exists (s0 : state T) q,
                             read_string s0 q = Some str) strs).
  { eapply List.Forall_impl; [|exact (strings_at_valid _ _ _ _ Hs)].
    intros str [q Hq]. by exists s, q. }
  exists s'. split; [done|]. split; [done|]. split.
  { rewrite <- Hlen. by apply strings_copy_at_read. }
  split.
  { by eapply strings_at_app. }
  intros ms s'' Hall Hms.
  assert (Hcopy' : strings_copy_at s'' nb strs).
  { apply (strings_copy_at_frame s'); [done|]. intros b' Hb'.
    eapply run_mutations_frame; [done|]. by eapply mutation_below_ne. }
  split.
  { rewrite <- Hlen. by apply strings_copy_at_read. }
  destruct (CopyPolicy_charptr_destroy_spec s'' nb strs size Hcopy')
    as (s_end & Hd & Hl & Hf & Hfreed); [done|].
  exists s_end. rewrite Hlen in Hl, Hfreed.
  split; [done|]. split; [done|]. split; [done|].
  intros b' Hb'. apply Hf. lia.
Qed.

(** *** Null and zero-length input *)

Lemma valid_ptr_app s s' l p :
  mem s' = mem s ++ l -> valid_ptr s p = true -> valid_ptr s' p = true.
Proof.
  intros Hm. destruct p as [|b o]; [done|]. unfold valid_ptr.
  destruct (block_at s b) as [blk|] eqn:Hb; [|done].
  by rewrite (block_at_app_l s s' b l Hm (block_at_lt _ _ _ Hb)), Hb.
Qed.

(** C6, as the code has it.  With a null source and count 0, [copy] of the
    transfer and alias policies returns the null handle and changes
    nothing, and the deep copy of an array of strings returns a fresh empty
    block whatever the source pointer is: its loop does not run, nothing is
    read.  The two other deep copies hand the source to [memcpy] and to
    [strcpy], which need a valid pointer also for count 0: a null source
    is undefined behaviour.  From a valid source the primary-template deep
    copy with count 0 gives a fresh empty block (nothing is read, the
    source may be at the very end of its block), and the deep copy of an
    empty terminated string gives a one-unit block.  [destroy] on a null
    handle does nothing, for every policy and size. *)
Theorem policies_null_and_zero (P : StoragePolicy) (E : ElemType) p (size : N) s :
  (P <> CopyPolicy -> policy_copy P E Null 0 s = Some (Null, s))
  /\ (exists s', policy_copy CopyPolicy TCharPtr p 0 s
                 = Some (Ptr (length (mem s)) 0, s')
        /\ mem s' = mem s ++ [Some []])
  /\ policy_copy CopyPolicy TPod Null size s = None
  /\ policy_copy CopyPolicy TChar Null size s = None
  /\ (valid_ptr s p = true ->
      exists s', policy_copy CopyPolicy TPod p 0 s
                 = Some (Ptr (length (mem s)) 0, s')
        /\ mem s' = mem s ++ [Some []])
  /\ (read_string s p = Some [] ->
      exists s', policy_copy CopyPolicy TChar p 0 s
                 = Some (Ptr (length (mem s)) 0, s')
        /\ mem s' = mem s ++ [Some [Some (VChar NUL)]])
  /\ policy_destroy P E Null size s = Some (tt, s).
Proof.
  split; [|split; [|split; [|split; [|split; [|split]]]]].
  - intros HP. by destruct P, E.
  - eexists. split; reflexivity.
  - simpl policy_copy. unfold CopyPolicy_copy.
    mstep (new_array_spec s (N.to_nat size)).
    apply bind_None_intro. unfold memcpy. simpl valid_ptr.
    by rewrite andb_false_r.
  - reflexivity.
  - intros Hvalid. simpl policy_copy. unfold CopyPolicy_copy.
    mstep (new_array_spec s (N.to_nat 0)).
    set (s1 := mkState _ _).
    assert (Hrun : memcpy (Ptr (length (mem s)) 0) p (N.to_nat 0) s1
                   = Some (tt, s1)).
    { unfold memcpy.
      rewrite (valid_ptr_app s s1 [Some (replicate (N.to_nat 0) None)] p eq_refl Hvalid).
      unfold valid_ptr.
      rewrite (block_at_app_new s s1 [] (replicate (N.to_nat 0) None) eq_refl).
      reflexivity. }
    exists s1. by mstep Hrun.
  - intros Hstr. destruct p as [|b o]; [done|].
    destruct (read_string_Some _ _ _ _ Hstr) as (blk & Hb & _ & _).
    pose proof (block_at_lt _ _ _ Hb) as Hlt.
    simpl policy_copy. unfold CopyPolicy_char_copy, mbind, M_bind.
    rewrite (bind_Some _ _ _ _ _ (new_array_spec s _)).
    change (N.to_nat (size_add 0 1)) with 1%nat.
    set (s1 := mkState _ _).
    destruct (strcpy_spec s1 (length (mem s)) b o [None] [])
      as (s' & Hrun & Hm & _).
    + lia.
    + by apply (block_at_app_new s s1 []).
    + rewrite <- Hstr. apply read_string_ext. intros ? ? [= <- <-].
      simpl. by apply lookup_app_l.
    + simpl. lia.
    + exists s'. rewrite (bind_Some _ _ _ _ _ Hrun). split; [done|].
      rewrite Hm. simpl.
      replace (length (mem s)) with (length (mem s) + 0)%nat at 1 by lia.
      by rewrite insert_app_r.
  - by destruct P, E.
Qed.

(** *** Equality of arrays *)

Lemma values_at_length s p n xs : values_at s p n = Some xs -> length xs = n.
Proof.
  unfold values_at. destruct p as [|b o]; [done|].
  destruct (cells_at s (Ptr b o) n) as [cs|] eqn:E; [|done].
  intros H. apply length_mapM in H. rewrite <- H.
  apply cells_at_Some in E as (blk & _ & Hle & ->).
  rewrite length_take, length_drop. lia.
Qed.

Lemma values_at_load s p n xs j x :
  values_at s p n = Some xs -> xs !! j = Some x -> load p j s = Some (x, s).
Proof.
  intros Hv Hj. pose proof (values_at_length _ _ _ _ Hv) as Hlen.
  pose proof (lookup_lt_Some _ _ _ Hj) as Hlt.
  unfold values_at in Hv. destruct p as [|b o]; [done|].
  destruct (cells_at s (Ptr b o) n) as [cs|] eqn:E; [|done].
  apply cells_at_Some in E as (blk & Hb & Hle & ->).
  apply mapM_Some in Hv.
  destruct (Forall2_lookup_r _ _ _ _ _ Hv Hj) as (c & Hc & ->).
  rewrite lookup_take_lt, lookup_drop in Hc by lia.
  unfold load, mbind, M_bind.
  by rewrite (bind_Some _ _ _ _ _ (load_cell_Some _ _ _ _ _ _ Hb Hc)).
Qed.

Lemma equal_loop_spec s pa pb xs ys n : forall i,
  (forall j x, xs !! j = Some x -> load pa j s = Some (x, s)) ->
  (forall j y, ys !! j = Some y -> load pb j s = Some (y, s)) ->
  length xs = (i + n)%nat -> length ys = (i + n)%nat ->
  exists r, equal_loop T_neq pa pb n i s = Some (r, s)
    /\ (r = true <->
        forall j x y, (i <= j)%nat -> xs !! j = Some x -> ys !! j = Some y ->
                      val_neq T_neq x y = false).
Proof.
  induction n as [|n IH]; intros i Hxs Hys Lx Ly; simpl.
  - exists true. split; [done|]. split; [|done].
    intros _ j x y Hj Hx. apply lookup_lt_Some in Hx. lia.
  - destruct (lookup_lt_is_Some_2 xs i) as [x Hx]; [lia|].
    destruct (lookup_lt_is_Some_2 ys i) as [y Hy]; [lia|].
    unfold mbind, M_bind.
    mstep ((Hxs _ _ Hx)).
    mstep ((Hys _ _ Hy)).
    destruct (val_neq T_neq x y) eqn:Hne.
    + exists false. split; [done|]. split; [done|].
      intros H. rewrite (H i x y) in Hne; [done | lia | done | done].
    + destruct (IH (S i)) as (r & Hr & Hiff); [done | done | lia | lia |].
      exists r. split; [done|]. rewrite Hiff. split.
      * intros H j x' y' Hj Hx' Hy'.
        destruct (decide (j = i)) as [->|Hji].
        -- congruence.
        -- apply (H j); [lia | done | done].
      * intros H j x' y' Hj. apply H. lia.
Qed.

(** C5: [operator==] answers [false], reading no element, when the
    dimension vectors differ (in length or in an entry); when they are the
    same and both handles refer to [size_] initialised elements, it answers
    [true] exactly when no pair of corresponding elements is unequal under
    the element type's comparison.  In neither case is there a failure or
    a change of state. *)
Theorem Array_equal_spec (this other : Array) s :
  (dims_ this <> dims_ other ->
   Array_equal T_neq this other s = Some (false, s))
  /\ (dims_ this = dims_ other ->
      forall xs ys,
        values_at s (ptr_ this) (N.to_nat (size_ this)) = Some xs ->
        values_at s (ptr_ other) (N.to_nat (size_ this)) = Some ys ->
        exists r, Array_equal T_neq this other s = Some (r, s)
          /\ (r = true <->
              forall j x y, xs !! j = Some x -> ys !! j = Some y ->
                            val_neq T_neq x y = false)).
Proof.
  unfold Array_equal. split.
  - intros Hd. by rewrite bool_decide_eq_false_2.
  - intros Hd xs ys Hxs Hys. rewrite bool_decide_eq_true_2 by done. simpl.
    destruct (equal_loop_spec s (ptr_ this) (ptr_ other) xs ys
                (N.to_nat (size_ this)) 0) as (r & Hr & Hiff).
    + intros j x. by apply (values_at_load _ _ _ _ _ _ Hxs).
    + intros j y. by apply (values_at_load _ _ _ _ _ _ Hys).
    + by rewrite (values_at_length _ _ _ _ Hxs).
    + by rewrite (values_at_length _ _ _ _ Hys).
    + exists r. split; [done|]. rewrite Hiff. split.
      * intros H j x y. apply H. lia.
      * intros H j x y _. apply H.
Qed.

(** *** Transfer and alias policies *)

(** C3: the transfer policy's [copy] is the identity on the handle and
    touches no storage, for every element type, so the array built with
    it stores the very handle it was given. *)
Theorem MovePolicy_copy_identity (E : ElemType) p (size : N) (dims : Dims) s :
  policy_copy MovePolicy E p size s = Some (p, s)
  /\ exists a, ArrayImpl_ctor MovePolicy E p dims s = Some (a, s)
               /\ ptr_ (impl_array a) = p
               /\ fst (getArray (impl_array a)) = p.
Proof.
  split; [by destruct E|].
  eexists. split; [by destruct E|]. done.
Qed.

(** C4: the alias policy's [destroy] does nothing at all: the state, that
    is every block and the record of deallocations, is the same after it,
    whatever the handle and the size; so is the state after destroying an
    array of that policy. *)
Theorem ShallowCopyPolicy_destroy_noop (E : ElemType) p (size : N) (arr : Array) s :
  policy_destroy ShallowCopyPolicy E p size s = Some (tt, s)
  /\ ArrayImpl_dtor (mkArrayImpl ShallowCopyPolicy E arr) s = Some (tt, s)
  /\ (forall dims a s1,
        ArrayImpl_ctor ShallowCopyPolicy E p dims s = Some (a, s1) ->
        s1 = s /\ ptr_ (impl_array a) = p
        /\ forall s2, ArrayImpl_dtor a s2 = Some (tt, s2)).
Proof.
  split; [by destruct E|]. split; [by destruct E|].
  intros dims a s1 H.
  assert (a = mkArrayImpl ShallowCopyPolicy E (Array_ctor p dims) /\ s1 = s)
    as [-> ->] by (destruct E; simpl in H; by inversion H).
  split; [done|]. split; [done|]. intros s2. by destruct E.
Qed.

(** *** The owning array *)

(** C9: the constructor calls the policy's [copy] on the source handle
    and [calculateSize dims], and stores what it returns, the dimensions
    and the count in the view; the destructor of the object is one call of
    the same policy's [destroy] on the stored handle and the stored
    count. *)
Theorem ArrayImpl_ctor_dtor (P : StoragePolicy) (E : ElemType) p (dims : Dims) s :
  match policy_copy P E p (calculateSize dims) s with
  | Some (q, s1) =>
      exists a, ArrayImpl_ctor P E p dims s = Some (a, s1)
        /\ impl_policy a = P /\ impl_elem a = E
        /\ ptr_ (impl_array a) = q
        /\ dims_ (impl_array a) = dims
        /\ size_ (impl_array a) = calculateSize dims
        /\ forall s2, ArrayImpl_dtor a s2
                      = policy_destroy P E q (calculateSize dims) s2
  | None => ArrayImpl_ctor P E p dims s = None
  end.
Proof.
  unfold ArrayImpl_ctor, mbind, M_bind, bind.
  destruct (policy_copy P E p (calculateSize dims) s) as [[q s1]|]; [|done].
  eexists. split; [reflexivity|]. done.
Qed.

End Properties.


(** ** The claims at concrete inputs *)

(** The deep copy of [1, 2, 3], run: the source is overwritten and deleted
    afterwards, the array still holds 1, 2, 3. *)
Example run_deep_copy_of_ints :
  (a_s ← ArrayImpl_ctor CopyPolicy TPod (Ptr 0 0) [3] st_ints;
   s'' ← run_mutations [MutStore (Ptr 0 0) 1 (Some (VPod 7%Z)); MutDelete (Ptr 0 0)]
           a_s.2;
   Some (array_contents s''.2 a_s.1, cells_at s''.2 (Ptr 0 0) 3))
  = Some (Some (ints [1; 2; 3]%Z), None).
Proof. reflexivity. Qed.

Lemma Array_equal_spec_witness :
  Array_equal int_neq (Array_ctor (Ptr 0 0) [2; 3]) (Array_ctor (Ptr 0 0) [3; 2]) st_six
  = Some (false, st_six)
  /\ Array_equal int_neq (Array_ctor (Ptr 0 0) [3]) (Array_ctor (Ptr 1 0) [3]) st_pair
     = Some (true, st_pair)
  /\ Array_equal int_neq (Array_ctor (Ptr 0 0) [3]) (Array_ctor (Ptr 2 0) [3]) st_pair
     = Some (false, st_pair).
Proof.
  split; [|split].
  - apply (Array_equal_spec int_neq (Array_ctor (Ptr 0 0) [2; 3])
             (Array_ctor (Ptr 0 0) [3; 2]) st_six).
    simpl. intros [= ?].
  - destruct (proj2 (Array_equal_spec int_neq (Array_ctor (Ptr 0 0) [3])
                       (Array_ctor (Ptr 1 0) [3]) st_pair)
                eq_refl (option_get (values_at st_pair (Ptr 0 0) 3))
                (option_get (values_at st_pair (Ptr 1 0) 3))
                eq_refl eq_refl) as (r & Hr & Hiff).
    rewrite Hr. replace r with true; [reflexivity|].
    symmetry. apply Hiff. intros [|[|[|j]]] x y [= <-] [= <-]; reflexivity.
  - destruct (proj2 (Array_equal_spec int_neq (Array_ctor (Ptr 0 0) [3])
                       (Array_ctor (Ptr 2 0) [3]) st_pair)
                eq_refl (option_get (values_at st_pair (Ptr 0 0) 3))
                (option_get (values_at st_pair (Ptr 2 0) 3))
                eq_refl eq_refl) as (r & Hr & Hiff).
    rewrite Hr. destruct r; [|reflexivity].
    discriminate (proj1 Hiff eq_refl 2%nat (VPod 3%Z) (VPod 4%Z) eq_refl eq_refl).
Defined.

Lemma policies_null_and_zero_witness :
  policy_copy MovePolicy TCharPtr Null 0 st_strings = Some (Null, st_strings)
  /\ valid_ptr st_ints (Ptr 0 3) = true
  /\ (exists s', policy_copy CopyPolicy TPod (Ptr 0 3) 0 st_ints
                 = Some (Ptr 1 0, s')
        /\ mem s' = mem st_ints ++ [Some []])
  /\ policy_destroy MovePolicy TCharPtr Null 5 st_strings = Some (tt, st_strings).
Proof.
  split; [|split; [reflexivity|split]].
  - apply (policies_null_and_zero MovePolicy TCharPtr Null 0 st_strings).
    discriminate.
  - apply (policies_null_and_zero CopyPolicy TPod (Ptr 0 3) 0 st_ints).
    reflexivity.
  - apply (policies_null_and_zero MovePolicy TCharPtr Null 5 st_strings).
Defined.

(** C6 as stated fails for the deep copy of a text buffer: with a null
    source and count 0, [strcpy] reads through the null pointer; with a
    live source block of no unit at all, it reads past the block's end. *)
Lemma CopyPolicy_char_copy_null :
  policy_copy CopyPolicy TChar Null 0 st_empty = None
  /\ ArrayImpl_ctor CopyPolicy TChar Null [0] st_empty = None
  /\ policy_copy CopyPolicy TChar (Ptr 0 0) 0 st_no_chars = None.
Proof. repeat split; reflexivity. Qed.

Lemma CopyPolicy_char_copy_spec_witness :
  read_string st_abc (Ptr 0 0) = Some (chars "abc")
  /\ exists s',
       CopyPolicy_char_copy (Ptr 0 0) 3 st_abc = Some (Ptr 1 0, s')
       /\ mem s' = [Some (cstring (chars "abc")); Some (cstring (chars "abc"))]
       /\ forall s'',
            run_mutations [MutStore (Ptr 0 0) 0 (Some (VChar "z"%char))] s'
            = Some (tt, s'') ->
            read_string s'' (Ptr 1 0) = Some (chars "abc").
Proof.
  split; [reflexivity|].
  destruct (CopyPolicy_char_copy_spec st_abc 0 0 (chars "abc") 3 eq_refl)
    as (s' & Hc & Hm & _ & _ & Hmut).
  - vm_compute. discriminate.
  - reflexivity.
  - exists s'. split; [exact Hc|]. split; [exact Hm|].
    intros s'' Hrun. refine (proj1 (Hmut _ s'' _ Hrun)).
    repeat constructor; unfold mutation_below; simpl; lia.
Defined.

(** C7 as stated fails when the element count is smaller than the length
    of the text: for "abc" with count 2 the code reserves 3 units and
    [strcpy] writes 4. *)
Lemma CopyPolicy_char_copy_overrun :
  read_string st_abc (Ptr 0 0) = Some (chars "abc")
  /\ CopyPolicy_char_copy (Ptr 0 0) 2 st_abc = None
  /\ ArrayImpl_ctor CopyPolicy TChar (Ptr 0 0) [2] st_abc = None.
Proof. repeat split; reflexivity. Qed.

Lemma CopyPolicy_charptr_deep_copy_witness :
  strings_at st_strings (Ptr 2 0) (N.to_nat 2) = Some [chars "x"; chars "yz"]
  /\ exists s',
       CopyPolicy_charptr_copy (Ptr 2 0) 2 st_strings = Some (Ptr 3 0, s')
       /\ strings_at s' (Ptr 3 0) 2 = Some [chars "x"; chars "yz"]
       /\ forall s'',
            run_mutations [MutStore (Ptr 1 0) 0 (Some (VChar "q"%char));
                           MutDelete (Ptr 0 0); MutDelete (Ptr 2 0)] s'
            = Some (tt, s'') ->
            strings_at s'' (Ptr 3 0) 2 = Some [chars "x"; chars "yz"]
            /\ exists s_end,
                 CopyPolicy_charptr_destroy (Ptr 3 0) 2 s'' = Some (tt, s_end)
                 /\ log s_end = log s'' ++ [EvDelete 4; EvDelete 5; EvDelete 3].
Proof.
  split; [reflexivity|].
  destruct (CopyPolicy_charptr_deep_copy st_strings 2 0 2
              [chars "x"; chars "yz"] eq_refl)
    as (s' & Hc & _ & Hr & _ & Hmut).
  - repeat constructor; vm_compute; discriminate.
  - exists s'. split; [exact Hc|]. split; [exact Hr|].
    intros s'' Hrun.
    assert (Hbelow : Forall (mutation_below (T:=Z) 3)
              [MutStore (Ptr 1 0) 0 (Some (VChar "q"%char));
               MutDelete (Ptr 0 0); MutDelete (Ptr 2 0)]).
    { repeat constructor; unfold mutation_below; simpl; lia. }
    destruct (Hmut _ s'' Hbelow Hrun) as (Hr' & s_end & Hd & Hl & _).
    split; [exact Hr'|]. exists s_end. split; [exact Hd | exact Hl].
Defined.

(** The deep copy of ["x", "yz"], run: the source strings and the source
    array are overwritten or deleted, the copy still reads "x" and "yz",
    and its destruction deletes blocks 4, 5 and then 3. *)
Example run_deep_copy_of_strings :
  (c ← CopyPolicy_charptr_copy (Ptr 2 0) 2 st_strings;
   m ← run_mutations [MutStore (Ptr 1 0) 0 (Some (VChar "q"%char));
                      MutDelete (Ptr 0 0); MutDelete (Ptr 2 0)] c.2;
   d ← CopyPolicy_charptr_destroy c.1 2 m.2;
   Some (c.1, strings_at m.2 c.1 2, drop 3 (log d.2)))
  = Some (Ptr 3 0, Some [chars "x"; chars "yz"],
          [EvDelete 0; EvDelete 2; EvDelete 4; EvDelete 5; EvDelete 3]).
Proof. reflexivity. Qed.

(** * Further properties *)

(** ** Verification against an implementation of [RSA_verify] *)

(** X1: [PublicKey::verifySignature] answers [true] exactly when the digest is
    not empty, the signature has 64 bytes, the key has an implementation
    and [RSA_verify], called on the SHA-1 identifier, the digest bytes and
    their number as an [unsigned int], the signature bytes, 64 and the
    key's [RSA], returns 1; any other return value of [RSA_verify], the
    error value -1 included, gives [false]. *)
Theorem verifySignature_true_iff
    (rsa_verify : Z -> list Z -> N -> list Z -> N -> RSA -> Z)
    (this : PublicKey) (messageDigest originalSignature : list Z) :
  run_crypto rsa_verify
    (PublicKey_verifySignature this messageDigest originalSignature) = true
  <-> messageDigest <> []
      /\ length originalSignature = 64%nat
      /\ exists impl, impl_ this = Some impl
         /\ rsa_verify NID_sha1
              (map to_unsigned_char messageDigest)
              (N.of_nat (length messageDigest) mod 2 ^ 32)
              (map to_unsigned_char originalSignature)
              64 (publicKey_ impl) = 1%Z.
Proof.
  unfold PublicKey_verifySignature, PublicKeyImpl_verifySignature,
    to_unsigned_int, SIGNATURE_SIZE.
  destruct messageDigest as [|m ms].
  { simpl. split; [done|]. by intros [? _]. }
  destruct originalSignature as [|g gs].
  { simpl. split; [done|]. intros (_ & ? & _). done. }
  set (sig := g :: gs). simpl orb. cbv iota.
  destruct (N.eqb_spec (N.of_nat (length sig)) 64) as [E|E]; simpl negb;
    cbv iota.
  - assert (Hlen : length sig = 64%nat) by lia.
    destruct (impl_ this) as [impl|]; simpl run_crypto.
    + rewrite Z.eqb_eq. split.
      * intros H. split; [done|]. split; [done|]. by exists impl.
      * intros (_ & _ & impl' & [= <-] & H). done.
    + split; [done|]. intros (_ & _ & impl' & ? & _). done.
  - simpl run_crypto. split; [done|]. intros (_ & Hlen & _). lia.
Qed.

(** ** The key file *)

Lemma extract_line_spec (l : list ascii) :
  (LF ∉ first_line l)
  /\ ((extract_line l).2 = true ->
      l = first_line l ++ LF :: after_first_line l)
  /\ ((extract_line l).2 = false ->
      l = first_line l /\ after_first_line l = []).
Proof.
  unfold first_line, after_first_line.
  induction l as [|c l (IH1 & IH2 & IH3)]; simpl.
  - split; [apply not_elem_of_nil|]. done.
  - destruct (Ascii.eqb_spec c LF) as [->|Hc]; simpl.
    + split; [apply not_elem_of_nil|]. done.
    + destruct (extract_line l) as [[line rest] d]. simpl in *.
      split; [|split].
      * rewrite not_elem_of_cons. split; [congruence | done].
      * intros Hd. by rewrite <- (IH2 Hd).
      * intros Hd. destruct (IH3 Hd) as [<- ->]. done.
Qed.

Lemma extract_line_app (e rest : list ascii) :
  LF ∉ e -> extract_line (e ++ LF :: rest) = (e, rest, true).
Proof.
  induction e as [|c e IH]; intros He; simpl.
  - reflexivity.
  - apply not_elem_of_cons in He as [Hc He].
    destruct (Ascii.eqb_spec c LF) as [->|_]; [done|].
    by rewrite (IH He).
Qed.

Lemma extract_line_no_delimiter (e : list ascii) :
  LF ∉ e -> extract_line e = (e, [], false).
Proof.
  induction e as [|c e IH]; intros He; simpl; [done|].
  apply not_elem_of_cons in He as [Hc He].
  destruct (Ascii.eqb_spec c LF) as [->|_]; [done|].
  by rewrite (IH He).
Qed.

(** The loop that skips line ends, on a good stream: the fuel given by
    [loadPublicKey] is enough, what is left starts with neither a carriage
    return nor a line feed, and a stream left empty has both bits set. *)
Lemma skip_line_ends_good (l : list ascii) : forall fuel o,
  (length l < fuel)%nat ->
  skip_line_ends fuel (mkIfstream o l false false)
  = Some (match drop_line_ends l with
          | [] => mkIfstream o [] true true
          | c :: r => mkIfstream o (c :: r) false false
          end).
Proof.
  induction l as [|c l IH]; intros [|fuel] o Hfuel; simpl in Hfuel; try lia.
  - reflexivity.
  - simpl. unfold peek, get, good. simpl.
    destruct (Ascii.eqb c CR) eqn:Ecr; simpl.
    + apply IH. lia.
    + destruct (Ascii.eqb c LF) eqn:Elf; simpl.
      * apply IH. lia.
      * reflexivity.
Qed.

(** The same loop on a stream that has met the end of its input. *)
Lemma skip_line_ends_at_eof fuel o (l : list ascii) (fail : bool) :
  skip_line_ends (S fuel) (mkIfstream o l true fail)
  = Some (mkIfstream o l true true).
Proof.
  simpl. unfold peek, good, setstate. simpl.
  by rewrite !orb_true_r.
Qed.

(** [loadPublicKey], flags and fuel resolved. *)
Lemma loadPublicKey_unfold (fs : filesystem) (fileName : list ascii) :
  loadPublicKey fs fileName
  = Some (match fs fileName with
          | None =>
              Thrown (chars "Error opening file with public key: " ++ fileName)
          | Some [] =>
              Thrown (chars "Error reading exponent from public key file: "
                      ++ fileName)
          | Some content =>
              match drop_line_ends (after_first_line content) with
              | [] =>
                  Thrown (chars "Error reading modulus from public key file: "
                          ++ fileName)
              | rest => Returned (first_line content, first_line rest)
              end
          end).
Proof.
  unfold loadPublicKey, ifstream_open.
  destruct (fs fileName) as [content|]; [|reflexivity].
  destruct content as [|c0 content0]; [reflexivity|].
  set (content := c0 :: content0).
  cbn [is_open Bool.eqb]. cbv iota.
  unfold getline at 1. cbn [good eofbit failbit negb andb buffer is_open].
  pose proof (extract_line_spec content) as (_ & Hd1 & Hd0).
  unfold first_line, after_first_line in *.
  destruct (extract_line content) as [[line rest] d] eqn:E.
  cbn [fst snd] in *. cbn [failbit buffer].
  destruct d; cbn [negb andb].
  - rewrite (skip_line_ends_good rest _ _ (Nat.lt_succ_diag_r _)).
    destruct (drop_line_ends rest) as [|c r] eqn:Edrop.
    + reflexivity.
    + unfold getline. cbn [good eofbit failbit negb andb buffer is_open].
      pose proof (extract_line_spec (c :: r)) as (_ & _ & Hr0).
      unfold first_line, after_first_line in *.
      destruct (extract_line (c :: r)) as [[line2 rest2] d2] eqn:E2.
      cbn [fst snd] in *. cbn [failbit].
      destruct d2; cbn [negb andb]; [reflexivity|].
      destruct (Hr0 eq_refl) as [<- _].
      by rewrite bool_decide_eq_false_2.
  - destruct (Hd0 eq_refl) as [<- ->].
    rewrite bool_decide_eq_false_2 by done. cbn [negb].
    cbn [length]. rewrite skip_line_ends_at_eof. reflexivity.
Qed.

Lemma drop_line_ends_spec (l : list ascii) :
  exists B, l = B ++ drop_line_ends l
    /\ Forall (fun c => c = CR \/ c = LF) B
    /\ match drop_line_ends l with
       | [] => True
       | c :: _ => c <> CR /\ c <> LF
       end.
Proof.
  induction l as [|c l (B & HB & Hblank & Hhead)]; simpl.
  - exists []. done.
  - destruct (Ascii.eqb_spec c CR) as [->|Hcr]; simpl.
    + exists (CR :: B). split; [by rewrite <- app_comm_cons, <- HB|].
      split; [|done]. constructor; [by left | done].
    + destruct (Ascii.eqb_spec c LF) as [->|Hlf]; simpl.
      * exists (LF :: B). split; [by rewrite <- app_comm_cons, <- HB|].
        split; [|done]. constructor; [by right | done].
      * exists []. done.
Qed.

Lemma drop_line_ends_app (B rest : list ascii) :
  Forall (fun c => c = CR \/ c = LF) B ->
  drop_line_ends (B ++ rest) = drop_line_ends rest.
Proof.
  induction 1 as [|c B [-> | ->] _ IH]; simpl; done.
Qed.

Lemma drop_line_ends_head (c : ascii) (rest : list ascii) :
  c <> CR -> c <> LF -> drop_line_ends (c :: rest) = c :: rest.
Proof.
  intros Hcr Hlf. simpl.
  destruct (Ascii.eqb_spec c CR); [done|].
  destruct (Ascii.eqb_spec c LF); done.
Qed.

Lemma first_line_app (m tail : list ascii) :
  LF ∉ m -> tail = [] \/ (exists t, tail = LF :: t) ->
  first_line (m ++ tail) = m.
Proof.
  intros Hm [-> | [t ->]]; unfold first_line.
  - by rewrite app_nil_r, extract_line_no_delimiter.
  - by rewrite extract_line_app.
Qed.

(** The first line feed of a text splits it in one way only. *)
Lemma first_line_decompose (content e rest : list ascii) :
  content = e ++ LF :: rest -> LF ∉ e ->
  first_line content = e /\ after_first_line content = rest.
Proof.
  intros -> He. unfold first_line, after_first_line.
  by rewrite extract_line_app.
Qed.

Lemma first_line_tail (l : list ascii) :
  exists tail, l = first_line l ++ tail /\ (tail = [] \/ exists t, tail = LF :: t).
Proof.
  pose proof (extract_line_spec l) as (_ & H1 & H0).
  destruct (extract_line l).2 eqn:E.
  - exists (LF :: after_first_line l). split; [by apply H1|]. right. by eexists.
  - exists []. destruct (H0 eq_refl) as [Hl _].
    split; [by rewrite app_nil_r | by left].
Qed.



(** X3: [loadPublicKey] returns the pair (exponent, modulus) exactly when the
    file holds the exponent, a line feed, any number of carriage returns
    and line feeds, then the modulus, which is not empty and starts with
    neither of the two, and after it nothing or a line feed.  The exponent
    and the modulus hold no line feed; a carriage return before the line
    feed that ends a line stays part of the value. *)
Theorem loadPublicKey_returns (fs : filesystem) (fileName exponent modulus : list ascii) :
  loadPublicKey fs fileName = Some (Returned (exponent, modulus))
  <-> exists B tail c m,
        fs fileName = Some (exponent ++ LF :: B ++ modulus ++ tail)
        /\ (LF ∉ exponent)
        /\ Forall (fun c => c = CR \/ c = LF) B
        /\ modulus = c :: m /\ c <> CR /\ c <> LF
        /\ (LF ∉ modulus)
        /\ (tail = [] \/ exists t, tail = LF :: t).
Proof.
  rewrite loadPublicKey_unfold. split.
  - destruct (fs fileName) as [[|c0 content0]|] eqn:Efs; try done.
    set (content := c0 :: content0) in *.
    pose proof (extract_line_spec content) as (Hfl & Hd1 & Hd0).
    destruct (drop_line_ends_spec (after_first_line content))
      as (B & HB & Hblank & Hhead).
    destruct (drop_line_ends (after_first_line content)) as [|c r] eqn:Edrop;
      [done|].
    intros [= <- <-].
    destruct (first_line_tail (c :: r)) as (tail & Hr & Htail).
    pose proof (extract_line_spec (c :: r)) as (Hfl2 & _ & _).
    destruct (first_line (c :: r)) as [|c' m] eqn:Efl.
    { exfalso. simpl in Hr. destruct Htail as [-> | [t ->]]; [done|].
      injection Hr as -> _. by destruct Hhead. }
    simpl in Hr. injection Hr as <- Hr.
    exists B, tail, c, m.
    destruct (extract_line content).2 eqn:Ed.
    + split.
      { f_equal. rewrite (Hd1 eq_refl) at 1. do 2 f_equal.
        rewrite HB. f_equal. simpl. by rewrite <- Hr. }
      destruct Hhead. done.
    + exfalso. destruct (Hd0 eq_refl) as [_ Hafter].
      rewrite Hafter in Edrop. done.
  - intros (B & tail & c & m & Hfs & He & HB & -> & Hcr & Hlf & Hm & Htail).
    rewrite Hfs.
    destruct (first_line_decompose (exponent ++ LF :: B ++ (c :: m) ++ tail)
                exponent (B ++ (c :: m) ++ tail) eq_refl He)
      as [Hfl Hafter].
    destruct (exponent ++ LF :: B ++ (c :: m) ++ tail) as [|c0 content0] eqn:Ec.
    { by destruct exponent. }
    rewrite Hafter, drop_line_ends_app by done.
    rewrite <- app_comm_cons, drop_line_ends_head by done.
    rewrite Hfl. rewrite app_comm_cons, first_line_app by done. done.
Qed.

(** A character is none of those of an explicit list. *)
Ltac not_in_list :=
  let H := fresh in
  unfold chars; simpl; intros H;
  repeat (apply elem_of_cons in H as [H|H]; [discriminate H|]);
  by apply elem_of_nil in H.

Lemma loadPublicKey_returns_witness :
  loadPublicKey
    (fun _ => Some (chars "010001" ++ [CR; LF; CR; LF] ++ chars "C0FFEE" ++ [CR; LF]))
    (chars "server.pub")
  = Some (Returned (chars "010001" ++ [CR], chars "C0FFEE" ++ [CR])).
Proof.
  apply (loadPublicKey_returns _ (chars "server.pub")
           (chars "010001" ++ [CR]) (chars "C0FFEE" ++ [CR])).
  exists [CR; LF], [LF], "C"%char, (chars "0FFEE" ++ [CR]).
  split; [reflexivity|].
  split; [not_in_list|].
  split; [repeat constructor; (by left) || (by right)|].
  split; [reflexivity|]. split; [done|]. split; [done|].
  split; [not_in_list|]. right. by eexists.
Defined.

(** ** The server key *)

Lemma verifySignature_run
    (rsa_verify : Z -> list Z -> N -> list Z -> N -> RSA -> Z)
    (this : PublicKey) (impl : PublicKeyImpl) (messageDigest originalSignature : list Z) :
  impl_ this = Some impl ->
  messageDigest <> [] -> length originalSignature = 64%nat ->
  run_crypto rsa_verify
    (PublicKey_verifySignature this messageDigest originalSignature)
  = Z.eqb (rsa_verify NID_sha1
             (map to_unsigned_char messageDigest)
             (N.of_nat (length messageDigest) mod 2 ^ 32)
             (map to_unsigned_char originalSignature)
             64 (publicKey_ impl)) 1.
Proof.
  intros Himpl Hd Hlen. unfold PublicKey_verifySignature.
  destruct messageDigest as [|m ms]; [done|].
  destruct originalSignature as [|g gs]; [done|].
  set (sig := g :: gs) in *. simpl orb. cbv iota.
  rewrite Hlen, Himpl. reflexivity.
Qed.

(** X4: [getServerPublicKey] reads the key file at most until it has a key: a
    call that returns leaves the key it returns in the static, and every
    later call returns that key again whatever the files then hold; a call
    that throws was made with the static empty and leaves it empty, so the
    next call reads the file again. *)
Theorem getServerPublicKey_once (BN_hex2bn : list ascii -> Z)
    (path : list ascii) (fs : filesystem)
    (static : option PublicKey) (r : outcome PublicKey) (static' : option PublicKey) :
  getServerPublicKey BN_hex2bn path fs static = Some (r, static') ->
  match r with
  | Returned key =>
      static' = Some key
      /\ (forall key0, static = Some key0 -> key = key0)
      /\ forall fs', getServerPublicKey BN_hex2bn path fs' static'
                     = Some (Returned key, static')
  | Thrown what =>
      static = None /\ static' = None
      /\ loadPublicKey fs path = Some (Thrown what)
  end.
Proof.
  unfold getServerPublicKey. destruct static as [key0|].
  - intros [= <- <-]. split; [done|]. split; [by intros ? [= <-]|done].
  - rewrite loadPublicKey_unfold.
    destruct (fs path) as [[|c0 content0]|]; try (by intros [= <- <-]).
    destruct (drop_line_ends _); by intros [= <- <-].
Qed.

Lemma getServerPublicKey_once_witness :
  getServerPublicKey (fun l => Z.of_nat (length l)) (chars "server.pub")
    (fun _ => Some (chars "010001" ++ [LF] ++ chars "C0FFEE" ++ [LF])) None
  = Some (Returned (mkPublicKey (Some (mkPublicKeyImpl (mkRSA 6 6)))),
          Some (mkPublicKey (Some (mkPublicKeyImpl (mkRSA 6 6)))))
  /\ getServerPublicKey (fun l => Z.of_nat (length l)) (chars "server.pub")
       (fun _ => None) (Some (mkPublicKey (Some (mkPublicKeyImpl (mkRSA 6 6)))))
     = Some (Returned (mkPublicKey (Some (mkPublicKeyImpl (mkRSA 6 6)))),
             Some (mkPublicKey (Some (mkPublicKeyImpl (mkRSA 6 6))))).
Proof.
  split; [reflexivity|].
  apply (getServerPublicKey_once (fun l => Z.of_nat (length l))
           (chars "server.pub")
           (fun _ => Some (chars "010001" ++ [LF] ++ chars "C0FFEE" ++ [LF]))
           None _ _ eq_refl).
Defined.

(** X5: From the key file to the check: when the file gives (exponent,
    modulus), the first call of [getServerPublicKey] returns the key built
    from them, with [BN_hex2bn] of the modulus as [n] and of the exponent
    as [e], and a non-empty digest with a 64-byte signature is verified
    by that key exactly when [RSA_verify] returns 1 for it. *)
Theorem server_key_verifies (BN_hex2bn : list ascii -> Z)
    (path : list ascii) (fs : filesystem) (exponent modulus : list ascii) :
  loadPublicKey fs path = Some (Returned (exponent, modulus)) ->
  exists key,
    getServerPublicKey BN_hex2bn path fs None = Some (Returned key, Some key)
    /\ key = PublicKey_ctor BN_hex2bn exponent modulus
    /\ forall rsa_verify messageDigest originalSignature,
         messageDigest <> [] -> length originalSignature = 64%nat ->
         (run_crypto rsa_verify
            (PublicKey_verifySignature key messageDigest originalSignature) = true
          <-> rsa_verify NID_sha1
                (map to_unsigned_char messageDigest)
                (N.of_nat (length messageDigest) mod 2 ^ 32)
                (map to_unsigned_char originalSignature)
                64 (mkRSA (BN_hex2bn modulus) (BN_hex2bn exponent)) = 1%Z).
Proof.
  intros Hload. exists (PublicKey_ctor BN_hex2bn exponent modulus).
  split; [|split; [done|]].
  - unfold getServerPublicKey. by rewrite Hload.
  - intros rsa_verify d sg Hd Hlen.
    rewrite (verifySignature_run rsa_verify
               (PublicKey_ctor BN_hex2bn exponent modulus)
               (PublicKeyImpl_ctor BN_hex2bn exponent modulus) d sg
               eq_refl Hd Hlen).
    apply Z.eqb_eq.
Qed.

Lemma server_key_verifies_witness :
  exists key,
    getServerPublicKey (fun l => Z.of_nat (length l)) (chars "server.pub")
      (fun _ => Some (chars "0101" ++ [LF] ++ chars "C0FFEE" ++ [LF])) None
    = Some (Returned key, Some key)
    /\ key = mkPublicKey (Some (mkPublicKeyImpl (mkRSA 6 4))).
Proof.
  destruct (server_key_verifies (fun l => Z.of_nat (length l))
              (chars "server.pub")
              (fun _ => Some (chars "0101" ++ [LF] ++ chars "C0FFEE" ++ [LF]))
              (chars "0101") (chars "C0FFEE") eq_refl)
    as (key & Hget & Hkey & _).
  exists key. split; [exact Hget | exact Hkey].
Defined.

(** ** More on the dimension utility *)

Lemma product_permutation (d1 d2 : Dims) :
  Permutation d1 d2 -> product d1 = product d2.
Proof.
  unfold product. induction 1 as [|x l l' _ IH|x y l|l l' l'' _ IH1 _ IH2]; simpl.
  - done.
  - by rewrite IH.
  - lia.
  - by rewrite IH1.
Qed.

(** X6: The element count depends on the entries of the dimension vector, not
    on their order: shapes that are rearrangements of one another, such as
    2 x 3 and 3 x 2, have the same count. *)
Theorem calculateSize_permutation (d1 d2 : Dims) :
  Permutation d1 d2 -> calculateSize d1 = calculateSize d2.
Proof.
  intros H. rewrite !calculateSize_mod. by rewrite (product_permutation d1 d2 H).
Qed.

Lemma calculateSize_permutation_witness :
  calculateSize [2; 3; 4] = calculateSize [4; 2; 3].
Proof.
  apply (calculateSize_permutation [2; 3; 4] [4; 2; 3]).
  change [4; 2; 3] with ([4] ++ [2; 3]).
  change [2; 3; 4] with ([2; 3] ++ [4]).
  apply Permutation_app_comm.
Defined.

(** X7: The count of a concatenated dimension vector is the [size_t] product
    of the counts of its parts, and every count is a [size_t] value. *)
Theorem calculateSize_app (d1 d2 : Dims) :
  calculateSize (d1 ++ d2)
  = (calculateSize d1 * calculateSize d2) mod 2 ^ 64
  /\ calculateSize d1 < 2 ^ 64.
Proof.
  rewrite !calculateSize_mod, product_app. unfold SIZE_MODULUS. split.
  - by rewrite N.Div0.mul_mod.
  - by apply N.mod_lt.
Qed.

(** ** More on the storage policies *)

Section Ownership.

Context {T : Type}.
Variable T_neq : T -> T -> bool.

Implicit Types (s : state T) (p q : ptr) (blk : list (cell T)).

#[local] Existing Instance M_ret.
#[local] Existing Instance M_bind.

Tactic Notation "mstep" uconstr(H) :=
  unfold mbind, M_bind; rewrite (bind_Some _ _ _ _ _ H).

(** *** Where a copy is defined *)

Lemma for_loop_app (body : nat -> M T unit) n1 n2 i s :
  for_loop (n1 + n2) i body s
  = match for_loop n1 i body s with
    | Some (_, s1) => for_loop n2 (i + n1) body s1
    | None => None
    end.
Proof.
  revert i s; induction n1 as [|n1 IH]; intros i s; simpl.
  - by rewrite Nat.add_0_r.
  - unfold mbind, M_bind, bind.
    destruct (body i s) as [[[] s1]|]; [|done].
    rewrite IH. by replace (S i + n1)%nat with (i + S n1)%nat by lia.
Qed.

Lemma known_ptr_block_at s b o blk :
  block_at s b = Some blk -> known_ptr s (Ptr b o).
Proof. apply block_at_lt. Qed.

(** [memcpy] from a source that does not hold [n] cells reads outside it. *)
Lemma memcpy_loop_overread s bd blkd p n :
  block_at s bd = Some blkd -> (n <= length blkd)%nat ->
  ptr_block p <> Some bd ->
  cells_at s p n = None -> (0 < n)%nat ->
  memcpy_loop (Ptr bd 0) p n s = None.
Proof.
  intros Hd Hn Hp Hcells Hpos. destruct p as [|bs os].
  { destruct n; [lia|]. reflexivity. }
  assert (Hne : bd <> bs) by (simpl in Hp; congruence).
  unfold cells_at in Hcells.
  destruct (block_at s bs) as [blks|] eqn:Hs.
  - case_decide as Hle; [done|].
    set (k := (length blks - os)%nat).
    assert (Hk : (n = k + S (n - k - 1))%nat) by (unfold k; lia).
    rewrite Hk. unfold memcpy_loop. rewrite for_loop_app.
    destruct (decide (os <= length blks)%nat) as [Hos|Hos].
    + destruct (memcpy_loop_spec s bd bs os blkd blks k) as (s1 & Hrun & Hm & _);
        try done; try (unfold k; lia).
      unfold memcpy_loop in Hrun. rewrite Hrun. cbn [for_loop Nat.add].
      assert (Hs1 : block_at s1 bs = Some blks).
      { rewrite (block_at_ext s s1 bs); [done|].
        rewrite Hm. by apply list_lookup_insert_ne. }
      unfold mbind, M_bind, bind, load_cell. rewrite Hs1.
      rewrite lookup_ge_None_2 by (unfold k; lia). done.
    + replace k with 0%nat by (unfold k; lia). cbn [for_loop Nat.add].
      unfold mbind, M_bind, mret, M_ret, bind, ret, load_cell. rewrite Hs.
      rewrite lookup_ge_None_2 by lia. done.
  - destruct n; [lia|]. unfold memcpy_loop. cbn [for_loop].
    unfold mbind, M_bind, bind, load_cell. by rewrite Hs.
Qed.

(** [memcpy] of more cells than the destination has writes outside it. *)
Lemma memcpy_loop_overrun s bd bs os blkd blks n :
  bd <> bs ->
  block_at s bd = Some blkd -> block_at s bs = Some blks ->
  (length blkd < n)%nat -> (os + n <= length blks)%nat ->
  memcpy_loop (Ptr bd 0) (Ptr bs os) n s = None.
Proof.
  intros Hne Hd Hs Hn Hsn.
  set (k := length blkd).
  assert (Hk : (n = k + S (n - k - 1))%nat) by (unfold k; lia).
  rewrite Hk. unfold memcpy_loop. rewrite for_loop_app.
  destruct (memcpy_loop_spec s bd bs os blkd blks k) as (s1 & Hrun & Hm & _);
    try done; try (unfold k; lia).
  unfold memcpy_loop in Hrun. rewrite Hrun. cbn [for_loop Nat.add].
  destruct (lookup_lt_is_Some_2 blks (os + k)) as [c Hc]; [unfold k; lia|].
  assert (Hs1 : block_at s1 bs = Some blks).
  { rewrite (block_at_ext s s1 bs); [done|].
    rewrite Hm. by apply list_lookup_insert_ne. }
  unfold mbind, M_bind. unfold bind at 1.
  rewrite (bind_Some _ _ _ _ _ (load_cell_Some _ _ _ _ _ _ Hs1 Hc)).
  unfold store_cell.
  assert (Hd1 : block_at s1 bd
                = Some (take k (drop os blks) ++ drop k blkd)).
  { apply block_at_Some. rewrite Hm. apply list_lookup_insert_eq.
    by eapply block_at_lt. }
  rewrite Hd1. rewrite decide_False; [done|].
  rewrite length_app, length_take, !length_drop. unfold k. lia.
Qed.

Lemma memcpy_overread s bd blkd p n :
  block_at s bd = Some blkd -> (n <= length blkd)%nat ->
  ptr_block p <> Some bd ->
  cells_at s p n = None -> (0 < n)%nat ->
  memcpy (Ptr bd 0) p n s = None.
Proof. intros. by eapply memcpy_None, memcpy_loop_overread. Qed.

Lemma memcpy_overrun s bd bs os blkd blks n :
  bd <> bs ->
  block_at s bd = Some blkd -> block_at s bs = Some blks ->
  (length blkd < n)%nat -> (os + n <= length blks)%nat ->
  memcpy (Ptr bd 0) (Ptr bs os) n s = None.
Proof. intros. by eapply memcpy_None, memcpy_loop_overrun. Qed.

(** X8: [CopyPolicy<T>::copy] of at least one element, from a pointer the
    caller can hold, is defined exactly when [size] cells can be read at
    the source: from a null or dangling pointer, or past the end of the
    source block, it is undefined behaviour. *)
Theorem CopyPolicy_copy_defined s p (size : N) :
  known_ptr s p -> 0 < size ->
  ((exists q s', CopyPolicy_copy p size s = Some (q, s'))
   <-> exists cs, cells_at s p (N.to_nat size) = Some cs).
Proof.
  intros Hknown Hpos. split.
  - intros (q & s' & Hrun).
    destruct (cells_at s p (N.to_nat size)) as [cs|] eqn:Hcells; [by eexists|].
    exfalso. unfold CopyPolicy_copy in Hrun.
    unfold mbind, M_bind in Hrun.
    rewrite (bind_Some _ _ _ _ _ (new_array_spec s _)) in Hrun.
    set (s1 := mkState _ _) in Hrun.
    rewrite (bind_None_intro (memcpy (Ptr (length (mem s)) 0) p (N.to_nat size)))
      in Hrun; [done|].
    apply (memcpy_overread s1 _ (replicate (N.to_nat size) None)).
    + by apply (block_at_app_new s s1 []).
    + by rewrite length_replicate.
    + destruct p as [|b o]; simpl in *; [done|]. intros [= ->]. lia.
    + rewrite <- Hcells. apply cells_at_ext. intros b o ->.
      simpl in Hknown. simpl. by apply lookup_app_l.
    + lia.
  - intros (cs & Hcells). destruct p as [|b o]; [done|].
    apply cells_at_Some in Hcells as (blk & Hb & Hle & _).
    destruct (CopyPolicy_copy_spec s b o blk size Hb Hle) as (s' & Hrun & _).
    by eexists _, _.
Qed.

(** X9: [CopyPolicy<char>::copy], with a count whose successor is a [size_t]
    and a pointer the caller can hold, is defined exactly when the source
    is a terminated string no longer than the count: a null or dangling
    source, a buffer with no terminator and a text longer than the count
    (which overruns the [size + 1] units reserved) are undefined
    behaviour. *)
Theorem CopyPolicy_char_copy_defined s p (size : N) :
  known_ptr s p -> size + 1 < 2 ^ 64 ->
  ((exists q s', CopyPolicy_char_copy p size s = Some (q, s'))
   <-> exists str, read_string s p = Some str
                   /\ (length str <= N.to_nat size)%nat).
Proof.
  intros Hknown Hsize.
  assert (Hn : N.to_nat (size_add size 1) = S (N.to_nat size)).
  { unfold size_add, SIZE_MODULUS. rewrite N.mod_small by done. lia. }
  unfold CopyPolicy_char_copy, mbind, M_bind.
  rewrite (bind_Some _ _ _ _ _ (new_array_spec s _)), Hn.
  set (n := N.to_nat size). set (nb := length (mem s)).
  set (s1 := mkState _ _).
  assert (Hnew : block_at s1 nb = Some (replicate (S n) None))
    by by apply (block_at_app_new s s1 []).
  assert (Hrs : read_string s1 p = read_string s p).
  { apply read_string_ext. intros b o ->. simpl in Hknown. simpl.
    by apply lookup_app_l. }
  destruct (read_string s p) as [str|] eqn:Hstr.
  - destruct p as [|b o]; [done|].
    destruct (read_string_Some _ _ _ _ Hrs) as (blk & Hb & Hle & _).
    pose proof (block_at_lt _ _ _ Hb) as Hlt. simpl in Hknown.
    destruct (decide (length str <= n)%nat) as [Hfit|Hfit].
    + destruct (strcpy_spec s1 nb b o (replicate (S n) None) str)
        as (s' & Hrun & _); try done.
      * unfold nb. lia.
      * rewrite length_replicate. lia.
      * rewrite (bind_Some _ _ _ _ _ Hrun). split; [|by eexists _, _].
        intros _. by exists str.
    + assert (Hrun : strcpy (Ptr nb 0) (Ptr b o) s1 = None).
      { unfold strcpy. rewrite Hrs.
        apply (memcpy_overrun s1 nb b o (replicate (S n) None) blk);
          try done.
        - unfold nb. lia.
        - rewrite length_replicate. lia. }
      rewrite (bind_None_intro _ _ _ Hrun). split.
      * by intros (? & ? & ?).
      * intros (str' & [= <-] & Hle'). lia.
  - assert (Hrun : strcpy (Ptr nb 0) p s1 = None)
      by (unfold strcpy; by rewrite Hrs).
    rewrite (bind_None_intro _ _ _ Hrun). split.
    + by intros (? & ? & ?).
    + by intros (str' & ? & _).
Qed.

(** *** Construction followed by destruction *)

(** X10: An array of the primary template built with the deep-copy policy and
    then destroyed: the store is as before with one more block, deleted;
    the source block is untouched; one allocation and one deallocation
    were made.  Destroying the array a second time deletes a deleted
    block, which is undefined behaviour. *)
Theorem CopyPolicy_ctor_dtor s b o (dims : Dims) (src : list (cell T)) :
  cells_at s (Ptr b o) (N.to_nat (calculateSize dims)) = Some src ->
  exists a s1 s2,
    ArrayImpl_ctor CopyPolicy TPod (Ptr b o) dims s = Some (a, s1)
    /\ ArrayImpl_dtor a s1 = Some (tt, s2)
    /\ mem s2 = mem s ++ [None]
    /\ log s2 = log s ++ [EvNew (length (mem s)) (N.to_nat (calculateSize dims));
                          EvDelete (length (mem s))]
    /\ ArrayImpl_dtor a s2 = None.
Proof.
  intros Hsrc. apply cells_at_Some in Hsrc as (blk & Hb & Hle & _).
  destruct (CopyPolicy_copy_spec s b o blk (calculateSize dims) Hb Hle)
    as (s1 & Hrun & Hm & Hl).
  set (nb := length (mem s)) in *.
  assert (Hnew : block_at s1 nb = Some (take (N.to_nat (calculateSize dims))
                                          (drop o blk)))
    by by apply (block_at_app_new s s1 []).
  eexists _, s1, _. split.
  { unfold ArrayImpl_ctor. simpl policy_copy. by mstep Hrun. }
  unfold ArrayImpl_dtor, Array_ctor. cbn [impl_policy impl_elem impl_array ptr_ size_].
  simpl policy_destroy. unfold CopyPolicy_destroy.
  change (negb (ptr_eqb Null (Ptr nb 0))) with true. cbv iota.
  split; [by apply (delete_array_Some _ _ _ Hnew)|].
  cbn [mem log]. split; [|split].
  - rewrite Hm. unfold nb. by rewrite insert_middle.
  - by rewrite Hl, <- app_assoc.
  - unfold delete_array, block_at. cbn [mem].
    rewrite list_lookup_insert_eq by (by eapply block_at_lt). done.
Qed.

Lemma CopyPolicy_char_copy_run s b o (str : list ascii) (size : N) :
  read_string s (Ptr b o) = Some str ->
  (length str <= N.to_nat size)%nat -> size + 1 < 2 ^ 64 ->
  exists s1,
    CopyPolicy_char_copy (Ptr b o) size s = Some (Ptr (length (mem s)) 0, s1)
    /\ mem s1 = mem s ++ [Some (cstring str
                    ++ replicate (N.to_nat size - length str) None)]
    /\ log s1 = log s ++ [EvNew (length (mem s)) (S (N.to_nat size))].
Proof.
  intros Hstr Hfit Hsize.
  assert (Hn : N.to_nat (size_add size 1) = S (N.to_nat size)).
  { unfold size_add, SIZE_MODULUS. rewrite N.mod_small by done. lia. }
  unfold CopyPolicy_char_copy. mstep (new_array_spec s _). rewrite Hn.
  set (n := N.to_nat size) in *. set (nb := length (mem s)).
  set (s0 := mkState _ _).
  destruct (read_string_Some _ _ _ _ Hstr) as (blk & Hb & _ & _).
  pose proof (block_at_lt _ _ _ Hb) as Hlt.
  destruct (strcpy_spec s0 nb b o (replicate (S n) None) str)
    as (s1 & Hrun & Hm & Hl).
  - unfold nb. lia.
  - by apply (block_at_app_new s s0 []).
  - rewrite <- Hstr. apply read_string_ext. intros ? ? [= <- <-].
    simpl. by apply lookup_app_l.
  - rewrite length_replicate. lia.
  - exists s1. mstep Hrun. split; [done|]. split; [|done].
    rewrite Hm. simpl. rewrite drop_replicate.
    replace (S n - S (length str))%nat with (n - length str)%nat by lia.
    unfold nb. by rewrite insert_middle.
Qed.

(** X11: An [ArrayImpl<char, CopyPolicy>] built from a terminated string
    no longer than the count and then destroyed leaves one more block,
    deleted, and nothing else changed; a second destruction is undefined
    behaviour. *)
Theorem CopyPolicy_char_ctor_dtor s b o (dims : Dims) (str : list ascii) :
  read_string s (Ptr b o) = Some str ->
  (length str <= N.to_nat (calculateSize dims))%nat ->
  calculateSize dims + 1 < 2 ^ 64 ->
  exists a s1 s2,
    ArrayImpl_ctor CopyPolicy TChar (Ptr b o) dims s = Some (a, s1)
    /\ ArrayImpl_dtor a s1 = Some (tt, s2)
    /\ mem s2 = mem s ++ [None]
    /\ log s2 = log s
         ++ [EvNew (length (mem s)) (S (N.to_nat (calculateSize dims)));
             EvDelete (length (mem s))]
    /\ ArrayImpl_dtor a s2 = None.
Proof.
  intros Hstr Hfit Hsize.
  destruct (CopyPolicy_char_copy_run s b o str (calculateSize dims)
              Hstr Hfit Hsize) as (s1 & Hrun & Hm & Hl).
  set (nb := length (mem s)) in *.
  pose proof (block_at_app_new s s1 [] _ Hm) as Hnew. fold nb in Hnew.
  eexists _, s1, _. split.
  { unfold ArrayImpl_ctor. simpl policy_copy. by mstep Hrun. }
  unfold ArrayImpl_dtor, Array_ctor. cbn [impl_policy impl_elem impl_array ptr_ size_].
  simpl policy_destroy. unfold CopyPolicy_char_destroy.
  change (negb (ptr_eqb Null (Ptr nb 0))) with true. cbv iota.
  split; [by apply (delete_array_Some _ _ _ Hnew)|].
  cbn [mem log]. split; [|split].
  - rewrite Hm. unfold nb. by rewrite insert_middle.
  - by rewrite Hl, <- app_assoc.
  - unfold delete_array, block_at. cbn [mem].
    rewrite list_lookup_insert_eq by (by eapply block_at_lt). done.
Qed.

(** *** Transfer of ownership *)

(** X12: The transfer policy (element type other than [char *]) makes the
    array the owner of the caller's block: the constructor allocates
    nothing, the destructor deletes the block.  After that the source
    pointer is dangling, and a second array built on the same handle, like
    the first one destroyed again, deletes a deleted block: undefined
    behaviour.  A handle that is not the start of a block cannot be
    destroyed at all. *)
Theorem MovePolicy_ownership (E : ElemType) s b blk (d1 d2 : Dims) :
  E <> TCharPtr -> block_at s b = Some blk ->
  exists a1 a2 s',
    ArrayImpl_ctor MovePolicy E (Ptr b 0) d1 s = Some (a1, s)
    /\ ArrayImpl_ctor MovePolicy E (Ptr b 0) d2 s = Some (a2, s)
    /\ ArrayImpl_dtor a1 s = Some (tt, s')
    /\ mem s' = <[b := None]> (mem s)
    /\ log s' = log s ++ [EvDelete b]
    /\ (forall i, load_cell (Ptr b 0) i s' = None)
    /\ ArrayImpl_dtor a1 s' = None
    /\ ArrayImpl_dtor a2 s' = None
    /\ forall o, o <> 0%nat ->
         ArrayImpl_dtor (mkArrayImpl MovePolicy E (Array_ctor (Ptr b o) d1)) s
         = None.
Proof.
  intros HE Hb. pose proof (block_at_lt _ _ _ Hb) as Hlt.
  assert (Hdel : forall s0 o (size : N),
            policy_destroy MovePolicy E (Ptr b o) size s0
            = delete_array (Ptr b o) s0) by (intros; by destruct E).
  eexists _, _, _.
  split; [by destruct E|]. split; [by destruct E|].
  unfold ArrayImpl_dtor, Array_ctor.
  cbn [impl_policy impl_elem impl_array ptr_ size_].
  rewrite !Hdel. split; [by apply (delete_array_Some _ _ _ Hb)|].
  cbn [mem log]. split; [done|]. split; [done|].
  assert (Hgone : block_at (mkState (<[b:=None]> (mem s))
                                    (log s ++ [EvDelete b])) b = None).
  { unfold block_at. cbn [mem]. by rewrite list_lookup_insert_eq. }
  split; [|split; [|split]].
  - intros i. unfold load_cell. by rewrite Hgone.
  - unfold delete_array. by rewrite Hgone.
  - unfold delete_array. by rewrite Hgone.
  - intros o Ho. rewrite Hdel. unfold delete_array. by destruct o.
Qed.

(** X13: [MoveStringPolicy<T>::destroy] deletes the handle block and nothing
    else, also when the elements are [char *]: every string the array
    referred to is still allocated and reads as before, so releasing the
    strings is left to the caller. *)
Theorem MoveStringPolicy_keeps_strings (E : ElemType) s b (size : N)
    (strs : list (list ascii)) :
  strings_at s (Ptr b 0) (N.to_nat size) = Some strs ->
  exists s',
    policy_destroy MoveStringPolicy E (Ptr b 0) size s = Some (tt, s')
    /\ log s' = log s ++ [EvDelete b]
    /\ block_at s' b = None
    /\ (forall b', b' <> b -> mem s' !! b' = mem s !! b')
    /\ forall q str, ptr_block q <> Some b ->
         read_string s q = Some str -> read_string s' q = Some str.
Proof.
  intros Hs. unfold strings_at in Hs.
  destruct (cells_at s (Ptr b 0) (N.to_nat size)) as [cs|] eqn:Hc; [|done].
  apply cells_at_Some in Hc as (blk & Hb & _).
  pose proof (block_at_lt _ _ _ Hb) as Hlt.
  eexists. split.
  { assert (policy_destroy MoveStringPolicy E = MoveStringPolicy_destroy)
      as -> by by destruct E.
    unfold MoveStringPolicy_destroy.
    change (negb (ptr_eqb Null (Ptr b 0))) with true. cbv iota.
    by apply (delete_array_Some _ _ _ Hb). }
  cbn [mem log]. split; [done|]. split; [|split].
  - unfold block_at. cbn [mem]. by rewrite list_lookup_insert_eq.
  - intros b' Hb'. by apply list_lookup_insert_ne.
  - intros q str Hq Hstr. rewrite <- Hstr. apply read_string_ext.
    intros b' o' ->. cbn [mem]. apply list_lookup_insert_ne.
    simpl in Hq. congruence.
Qed.

(** *** Destroying an array of strings the caller built *)

Lemma handle_cells_lookup (hs : list ptr) i h :
  hs !! i = Some h -> handle_cells (T:=T) hs !! i = Some (Some (VPtr h)).
Proof.
  intros H. unfold handle_cells.
  change (map ?f hs) with (f <$> hs). by rewrite list_lookup_fmap, H.
Qed.

(** X14: [CopyPolicy<char *>::destroy] and [MovePolicy<char *>::destroy] on any
    array of handles each of which is null or the start of a live block of
    its own: the blocks of the non-null handles are deleted in index order,
    then the handle block; null handles are passed over; every other block
    is as before. *)
Theorem charptr_destroy_spec (P : StoragePolicy) s b (size : N) (hs : list ptr) :
  P = CopyPolicy \/ P = MovePolicy ->
  cells_at s (Ptr b 0) (N.to_nat size) = Some (handle_cells hs) ->
  Forall (fun h => h = Null
                   \/ exists bi blk, h = Ptr bi 0 /\ block_at s bi = Some blk
                                     /\ bi <> b) hs ->
  NoDup (omap ptr_block hs) ->
  exists s',
    policy_destroy P TCharPtr (Ptr b 0) size s = Some (tt, s')
    /\ log s' = log s ++ (EvDelete <$> omap ptr_block hs) ++ [EvDelete b]
    /\ (forall b', b' = b \/ b' ∈ omap ptr_block hs -> block_at s' b' = None)
    /\ (forall b', b' <> b -> b' ∉ omap ptr_block hs ->
                   mem s' !! b' = mem s !! b').
Proof.
  intros HP Hcells Hhs Hnodup.
  apply cells_at_Some in Hcells as (blk & Hb & Hle & Hcells).
  rewrite drop_0 in Hcells.
  assert (Hlen : length hs = N.to_nat size).
  { apply (f_equal length) in Hcells.
    unfold handle_cells in Hcells.
    rewrite length_map, length_take in Hcells. lia. }
  assert (Hbnot : b ∉ omap ptr_block hs).
  { intros Hin. apply list_elem_of_omap in Hin as (h & Hh & Hpb).
    apply list_elem_of_In in Hh.
    apply (proj1 (List.Forall_forall _ _) Hhs) in Hh.
    destruct Hh as [-> | (bi & ? & -> & _ & Hne)]; [done|].
    simpl in Hpb. congruence. }
  pose (I := fun (i : nat) (si : state T) =>
    log si = log s ++ (EvDelete <$> omap ptr_block (take i hs))
    /\ (forall b', b' ∉ omap ptr_block (take i hs) -> mem si !! b' = mem s !! b')
    /\ (forall b', b' ∈ omap ptr_block (take i hs) -> mem si !! b' = Some None)).
  assert (Hloop : exists s1,
            delete_strings (Ptr b 0) size s = Some (tt, s1) /\ I (length hs) s1).
  { unfold delete_strings. rewrite <- Hlen.
    match goal with
    | |- context [for_loop ?k ?i0 ?body] =>
        destruct (for_loop_inv I body k i0 s) as (s1 & Hrun & HI)
    end.
    - split; [|split].
      + simpl. by rewrite app_nil_r.
      + done.
      + intros b'. simpl. intros Hin. by apply elem_of_nil in Hin.
    - intros i si Hi (Hl & Hf & Hd).
      destruct (lookup_lt_is_Some_2 hs i) as [h Hh]; [lia|].
      assert (Htake : take (S i) hs = take i hs ++ [h]) by by apply take_S_r.
      assert (Hsub : forall b', b' ∈ omap ptr_block (take i hs) ->
                                b' ∈ omap ptr_block hs).
      { intros b' Hin. rewrite <- (take_drop i hs), omap_app.
        apply elem_of_app. by left. }
      assert (Hbi : block_at si b = Some blk).
      { rewrite <- Hb. apply block_at_ext, Hf. intros Hin. by apply Hbnot, Hsub. }
      assert (Hcell : blk !! (0 + i)%nat = Some (Some (VPtr h))).
      { rewrite <- (lookup_take_lt blk (N.to_nat size)) by lia.
        rewrite <- Hcells. by apply handle_cells_lookup. }
      unfold mbind, M_bind.
      rewrite (bind_Some _ _ _ _ _ (load_ptr_Some _ _ _ _ _ _ Hbi Hcell)).
      pose proof (Forall_lookup_1 _ _ _ _ Hhs Hh) as Hvalid.
      destruct Hvalid as [-> | (bi & blki & -> & Hblki & Hne)].
      + exists si. split; [done|]. unfold I. rewrite Htake, omap_app.
        simpl. by rewrite app_nil_r.
      + assert (Hfresh : bi ∉ omap ptr_block (take i hs)).
        { intros Hin. rewrite <- (take_drop_middle hs i (Ptr bi 0) Hh) in Hnodup.
          rewrite omap_app in Hnodup. apply list.NoDup_app in Hnodup as (_ & Hdis & _).
          apply (Hdis bi Hin). simpl. apply elem_of_cons. by left. }
        assert (Hlive : block_at si bi = Some blki).
        { rewrite <- Hblki. by apply block_at_ext, Hf. }
        eexists. split; [by apply (delete_array_Some _ _ _ Hlive)|].
        unfold I. cbn [mem log]. rewrite Htake, omap_app. simpl.
        split; [|split].
        * by rewrite Hl, fmap_app, <- app_assoc.
        * intros b' Hb'. rewrite not_elem_of_app, not_elem_of_cons in Hb'.
          destruct Hb' as (Hb'1 & Hb'2 & _).
          rewrite list_lookup_insert_ne by done. by apply Hf.
        * intros b' Hb'. apply elem_of_app in Hb' as [Hb'|Hb'].
          -- rewrite list_lookup_insert_ne by (intros ->; done). by apply Hd.
          -- apply list_elem_of_singleton in Hb' as ->.
             apply list_lookup_insert_eq. by eapply block_at_lt.
    - exists s1. done. }
  destruct Hloop as (s1 & Hrun & Hl & Hf & Hd).
  rewrite firstn_all in Hl, Hf, Hd.
  assert (Hb1 : block_at s1 b = Some blk).
  { rewrite <- Hb. by apply block_at_ext, Hf. }
  pose proof (block_at_lt _ _ _ Hb1) as Hlt.
  eexists. split.
  { assert (policy_destroy P TCharPtr (Ptr b 0) size s
            = (delete_strings (Ptr b 0) size;; delete_array (Ptr b 0)) s)
      as -> by (by destruct HP as [-> | ->]).
    mstep Hrun. by apply (delete_array_Some _ _ _ Hb1). }
  cbn [mem log]. split; [|split].
  - by rewrite Hl, <- app_assoc.
  - intros b' [-> | Hin]; unfold block_at; cbn [mem].
    + by rewrite list_lookup_insert_eq.
    + rewrite list_lookup_insert_ne by (intros ->; done). by rewrite Hd.
  - intros b' Hne Hnot. rewrite list_lookup_insert_ne by done. by apply Hf.
Qed.

(** *** Equality, copies and aliases *)

Lemma ptr_eqb_refl p : ptr_eqb p p = true.
Proof. destruct p as [|b o]; simpl; [done|]. by rewrite !Nat.eqb_refl. Qed.

Lemma ptr_eqb_sym p q : ptr_eqb p q = ptr_eqb q p.
Proof.
  destruct p, q; simpl; try done.
  by rewrite (Nat.eqb_sym b), (Nat.eqb_sym o).
Qed.

Lemma val_neq_irrefl (v : val T) :
  (forall x, T_neq x x = false) -> val_neq T_neq v v = false.
Proof.
  intros H. destruct v as [t|c|q]; simpl.
  - apply H.
  - by rewrite Ascii.eqb_refl.
  - by rewrite ptr_eqb_refl.
Qed.

Lemma val_neq_sym (v w : val T) :
  (forall x y, T_neq x y = T_neq y x) -> val_neq T_neq v w = val_neq T_neq w v.
Proof.
  intros H. destruct v, w; simpl; try done.
  - by rewrite Ascii.eqb_sym.
  - by rewrite ptr_eqb_sym.
Qed.

(** X15: When the element type's [operator!=] never holds between a value and
    itself, an array whose elements can be read compares equal to itself
    and to every array that shares its handle and dimensions. *)
Theorem Array_equal_reflexive (a : Array) s (xs : list (val T)) :
  (forall x, T_neq x x = false) ->
  values_at s (ptr_ a) (N.to_nat (size_ a)) = Some xs ->
  Array_equal T_neq a a s = Some (true, s)
  /\ Array_equal T_neq a (Array_ctor (ptr_ a) (dims_ a)) s = Some (true, s).
Proof.
  intros Hirr Hxs.
  assert (Hloop : equal_loop T_neq (ptr_ a) (ptr_ a) (N.to_nat (size_ a)) 0 s
                  = Some (true, s)).
  { destruct (equal_loop_spec T_neq s (ptr_ a) (ptr_ a) xs xs
                (N.to_nat (size_ a)) 0) as (r & Hr & Hiff).
    - intros j x. by apply (values_at_load _ _ _ _ _ _ Hxs).
    - intros j x. by apply (values_at_load _ _ _ _ _ _ Hxs).
    - by rewrite (values_at_length _ _ _ _ Hxs).
    - by rewrite (values_at_length _ _ _ _ Hxs).
    - rewrite Hr. replace r with true; [done|]. symmetry. apply Hiff.
      intros j x y _ Hx Hy. rewrite Hx in Hy. injection Hy as <-.
      by apply val_neq_irrefl. }
  unfold Array_equal. cbn [dims_ ptr_ Array_ctor].
  rewrite bool_decide_eq_true_2 by done. done.
Qed.

(** X16: When the element type's [operator!=] is symmetric, [operator==] gives
    the same answer with its operands exchanged, for two arrays whose
    elements can be read. *)
Theorem Array_equal_symmetric p q (d1 d2 : Dims) s (xs ys : list (val T)) :
  (forall x y, T_neq x y = T_neq y x) ->
  values_at s p (N.to_nat (calculateSize d1)) = Some xs ->
  values_at s q (N.to_nat (calculateSize d2)) = Some ys ->
  Array_equal T_neq (Array_ctor p d1) (Array_ctor q d2) s
  = Array_equal T_neq (Array_ctor q d2) (Array_ctor p d1) s.
Proof.
  intros Hsym Hxs Hys. unfold Array_equal. cbn [dims_ ptr_ size_ Array_ctor].
  destruct (decide (d1 = d2)) as [<-|Hd].
  - rewrite bool_decide_eq_true_2 by done. cbn [negb].
    set (n := N.to_nat (calculateSize d1)) in *.
    destruct (equal_loop_spec T_neq s p q xs ys n 0) as (r1 & Hr1 & Hiff1);
      try (by rewrite (values_at_length _ _ _ _ Hxs));
      try (by rewrite (values_at_length _ _ _ _ Hys));
      try (intros j x; by apply (values_at_load _ _ _ _ _ _ Hxs));
      try (intros j x; by apply (values_at_load _ _ _ _ _ _ Hys)).
    destruct (equal_loop_spec T_neq s q p ys xs n 0) as (r2 & Hr2 & Hiff2);
      try (by rewrite (values_at_length _ _ _ _ Hxs));
      try (by rewrite (values_at_length _ _ _ _ Hys));
      try (intros j x; by apply (values_at_load _ _ _ _ _ _ Hxs));
      try (intros j x; by apply (values_at_load _ _ _ _ _ _ Hys)).
    rewrite Hr1, Hr2. do 2 f_equal.
    apply eq_true_iff_eq. rewrite Hiff1, Hiff2. split.
    + intros H j y x Hj Hy Hx. rewrite <- val_neq_sym by done. by apply (H j).
    + intros H j x y Hj Hx Hy. rewrite val_neq_sym by done. by apply (H j).
  - rewrite !bool_decide_eq_false_2 by congruence. done.
Qed.

Lemma values_at_cells s s' p p' n :
  cells_at s' p' n = cells_at s p n -> values_at s' p' n = values_at s p n.
Proof. unfold values_at. by intros ->. Qed.

(** X17: A deep copy (primary template) of initialised elements compares equal
    to an array over its source, in either order, when the element type's
    [operator!=] never holds between a value and itself. *)
Theorem deep_copy_equals_source s b o (dims : Dims) (xs : list (val T)) :
  (forall x, T_neq x x = false) ->
  values_at s (Ptr b o) (N.to_nat (calculateSize dims)) = Some xs ->
  exists a s',
    ArrayImpl_ctor CopyPolicy TPod (Ptr b o) dims s = Some (a, s')
    /\ Array_equal T_neq (impl_array a) (Array_ctor (Ptr b o) dims) s'
       = Some (true, s')
    /\ Array_equal T_neq (Array_ctor (Ptr b o) dims) (impl_array a) s'
       = Some (true, s').
Proof.
  intros Hirr Hxs. set (n := N.to_nat (calculateSize dims)) in *.
  assert (Hcells : exists cs, cells_at s (Ptr b o) n = Some cs).
  { unfold values_at in Hxs. destruct (cells_at s (Ptr b o) n); [by eexists|done]. }
  destruct Hcells as (cs & Hcells).
  pose proof Hcells as Hc0.
  apply cells_at_Some in Hc0 as (blk & Hb & Hle & ->).
  destruct (CopyPolicy_copy_spec s b o blk (calculateSize dims) Hb Hle)
    as (s' & Hrun & Hm & _).
  fold n in Hm. set (nb := length (mem s)) in *.
  pose proof (block_at_lt _ _ _ Hb) as Hlt.
  assert (Hsrc' : cells_at s' (Ptr b o) n = cells_at s (Ptr b o) n).
  { apply cells_at_ext. intros ? ? [= <- <-]. rewrite Hm. by apply lookup_app_l. }
  assert (Hnew : cells_at s' (Ptr nb 0) n = cells_at s (Ptr b o) n).
  { rewrite Hcells. apply cells_at_Some. eexists.
    split; [by apply (block_at_app_new s s' [])|].
    rewrite length_take, length_drop. split; [lia|].
    rewrite drop_0. symmetry. apply take_ge.
    rewrite length_take, length_drop. lia. }
  assert (Hx1 : values_at s' (Ptr nb 0) n = Some xs)
    by (by rewrite (values_at_cells s s' (Ptr b o) (Ptr nb 0) n Hnew)).
  assert (Hx2 : values_at s' (Ptr b o) n = Some xs)
    by (by rewrite (values_at_cells s s' (Ptr b o) (Ptr b o) n Hsrc')).
  eexists _, s'. split.
  { unfold ArrayImpl_ctor. simpl policy_copy. by mstep Hrun. }
  unfold Array_equal, Array_ctor. cbn [impl_array dims_ ptr_ size_].
  rewrite bool_decide_eq_true_2 by done. cbn [negb]. fold n.
  assert (Hgen : forall p1 p2,
            values_at s' p1 n = Some xs -> values_at s' p2 n = Some xs ->
            equal_loop T_neq p1 p2 n 0 s' = Some (true, s')).
  { intros p1 p2 H1 H2.
    destruct (equal_loop_spec T_neq s' p1 p2 xs xs n 0) as (r & Hr & Hiff).
    - intros j x. by apply (values_at_load _ _ _ _ _ _ H1).
    - intros j x. by apply (values_at_load _ _ _ _ _ _ H2).
    - by rewrite (values_at_length _ _ _ _ H1).
    - by rewrite (values_at_length _ _ _ _ H1).
    - rewrite Hr. replace r with true; [done|]. symmetry. apply Hiff.
      intros j x y _ Hx Hy. rewrite Hx in Hy. injection Hy as <-.
      by apply val_neq_irrefl. }
  split; by apply Hgen.
Qed.

Lemma load_ptr_load s s' p q i :
  load_ptr p i s = Some (q, s') -> load p i s = Some (VPtr q, s').
Proof.
  unfold load_ptr, mbind, M_bind, bind.
  destruct (load p i s) as [[v s1]|]; [|done].
  destruct v; try done. by intros [= <- <-].
Qed.

(** X18: [operator==] on arrays of [char *] compares the handles, not the
    strings: a deep copy of at least one string reads as the same strings
    as its source and still compares unequal to it, its handles being
    fresh. *)
Theorem charptr_copy_not_equal s b o (dims : Dims) (strs : list (list ascii)) :
  strings_at s (Ptr b o) (N.to_nat (calculateSize dims)) = Some strs ->
  Forall (fun str => (N.of_nat (length str) + 1 < 2 ^ 64)%N) strs ->
  0 < calculateSize dims ->
  exists a s',
    ArrayImpl_ctor CopyPolicy TCharPtr (Ptr b o) dims s = Some (a, s')
    /\ strings_at s' (ptr_ (impl_array a)) (N.to_nat (calculateSize dims))
       = Some strs
    /\ strings_at s' (Ptr b o) (N.to_nat (calculateSize dims)) = Some strs
    /\ Array_equal T_neq (impl_array a) (Array_ctor (Ptr b o) dims) s'
       = Some (false, s').
Proof.
  intros Hs Hfit Hpos. pose proof (strings_at_length _ _ _ _ Hs) as Hlen.
  destruct (CopyPolicy_charptr_copy_spec s b o (calculateSize dims) strs Hs Hfit)
    as (s' & Hrun & Hm).
  set (n := N.to_nat (calculateSize dims)) in *. set (nb := length (mem s)) in *.
  pose proof (strings_copy_at_intro s s' n strs Hm Hlen) as Hcopy.
  fold nb in Hcopy.
  eexists _, s'. split.
  { unfold ArrayImpl_ctor. simpl policy_copy. by mstep Hrun. }
  cbn [impl_array ptr_ Array_ctor]. split; [|split].
  - rewrite <- Hlen. apply strings_copy_at_read; [done|].
    eapply List.Forall_impl; [|exact (strings_at_valid _ _ _ _ Hs)].
    intros str [q Hq]. by exists s, q.
  - by eapply strings_at_app.
  - unfold Array_equal, Array_ctor. cbn [dims_ ptr_ size_].
    rewrite bool_decide_eq_true_2 by done. cbn [negb]. fold n.
    destruct n as [|n'] eqn:En; [lia|].
    destruct (lookup_lt_is_Some_2 strs 0) as [str Hstr]; [lia|].
    destruct (strings_at_load s s' _ _ _ _ 0 str Hs Hstr Hm)
      as (bq & oq & Hload & _ & _ & Hbq).
    destruct Hcopy as [Hh _].
    assert (Hh0 : string_handles (T:=T) nb (length strs) !! (0 + 0)%nat
                  = Some (Some (VPtr (Ptr (nb + 1 + 0) 0)))).
    { apply string_handles_lookup. lia. }
    pose proof (load_ptr_load _ _ _ _ _
                  (load_ptr_Some _ _ _ _ _ _ Hh Hh0)) as Hl1.
    pose proof (load_ptr_load _ _ _ _ _ Hload) as Hl2.
    cbn [equal_loop]. mstep Hl1. mstep Hl2.
    assert (Hneq : val_neq T_neq (VPtr (Ptr (nb + 1 + 0) 0)) (VPtr (Ptr bq oq))
                   = true).
    { simpl. apply negb_true_iff, andb_false_iff. left.
      apply Nat.eqb_neq. lia. }
    rewrite Hneq. reflexivity.
Qed.

(** *** Deep copy, every element type *)

(** C2, as the code has it: for each element type, an array built with
    the deep-copy policy from a source that meets what that type's [copy]
    needs (readable elements; for [char] a terminated text of exactly as
    many characters as the count; for [char *] handles to terminated
    strings) holds, in storage of its own, the same as the source held
    at construction: the same elements, or for [char *] the same strings.
    The source is left as it was, and whatever the caller then stores
    into or deletes of the blocks that existed before the construction,
    the source among them, the array still holds the same. *)
Theorem CopyPolicy_deep_copy (E : ElemType) s b o (dims : Dims) :
  copy_source E s (Ptr b o) (calculateSize dims) ->
  exists a s' obs,
    ArrayImpl_ctor CopyPolicy E (Ptr b o) dims s = Some (a, s')
    /\ ptr_ (impl_array a) = Ptr (length (mem s)) 0
    /\ observe E s (Ptr b o) (N.to_nat (calculateSize dims)) = Some obs
    /\ array_observe s' a = Some obs
    /\ observe E s' (Ptr b o) (N.to_nat (calculateSize dims)) = Some obs
    /\ forall (ms : list (mutation T)) s'',
         Forall (mutation_below (length (mem s))) ms ->
         run_mutations ms s' = Some (tt, s'') ->
         array_observe s'' a = Some obs.
Proof.
  intros Hsrc. set (n := N.to_nat (calculateSize dims)) in *.
  set (nb := length (mem s)).
  destruct E; cbn [copy_source] in Hsrc.
  - (* primary template *)
    destruct Hsrc as (cs & Hcs). fold n in Hcs.
    destruct (CopyPolicy_pod_deep_copy s b o dims cs Hcs)
      as (a & s' & Hc & Hp & Ha & Hs & Hmut).
    assert (Hel : impl_elem a = TPod).
    { unfold ArrayImpl_ctor, mbind, M_bind, bind in Hc.
      destruct (policy_copy _ _ _ _ _) as [[q s1]|]; [|done].
      by injection Hc as <- _. }
    assert (Hobs : forall s2, array_contents s2 a = Some cs ->
                     array_observe s2 a = Some (ObsCells cs)).
    { intros s2 H2. unfold array_observe, array_contents in *.
      rewrite Hel. cbn [observe]. by rewrite H2. }
    exists a, s', (ObsCells cs). split; [done|]. split; [done|].
    cbn [observe]. fold n in Hs. rewrite Hcs, Hs.
    split; [done|]. split; [by apply Hobs|]. split; [done|].
    intros ms s'' Hall Hrun. apply Hobs. by apply (Hmut ms s'' Hall Hrun).
  - (* text buffer *)
    destruct Hsrc as [(str & Hstr & Hlen) Hsize]. fold n in Hlen.
    destruct (CopyPolicy_char_copy_run s b o str (calculateSize dims) Hstr)
      as (s' & Hrun & Hm & _); [fold n; lia | done |].
    fold n nb in Hrun, Hm.
    rewrite Hlen, Nat.sub_diag, app_nil_r in Hm.
    destruct (read_string_Some _ _ _ _ Hstr) as (blk & Hb & Hle & Htake).
    pose proof (block_at_lt _ _ _ Hb) as Hlt.
    assert (Hobs : cells_at s (Ptr b o) n = Some (take n (cstring str))).
    { apply cells_at_Some. exists blk. split; [done|]. split; [lia|].
      rewrite <- Htake, take_take. f_equal. lia. }
    assert (Hnew : forall s2, block_at s2 nb = Some (cstring str) ->
                     cells_at s2 (Ptr nb 0) n = Some (take n (cstring str))).
    { intros s2 H2. apply cells_at_Some. exists (cstring str).
      split; [done|]. rewrite length_cstring, drop_0. split; [lia|done]. }
    assert (Hb' : block_at s' nb = Some (cstring str))
      by by apply (block_at_app_new s s' []).
    eexists _, s', (ObsCells (take n (cstring str))). split.
    { unfold ArrayImpl_ctor. simpl policy_copy. by mstep Hrun. }
    unfold array_observe, Array_ctor.
    cbn [impl_elem impl_array ptr_ size_ observe]. fold n nb.
    rewrite Hobs, (Hnew s' Hb').
    split; [done|]. split; [done|]. split; [done|]. split.
    + rewrite (cells_at_ext s s' (Ptr b o) n), Hobs; [done|].
      intros ? ? [= <- <-]. rewrite Hm. by apply lookup_app_l.
    + intros ms s'' Hall Hms. rewrite (Hnew s''); [done|].
      rewrite <- Hb'. apply block_at_ext.
      eapply run_mutations_frame; [done|]. by eapply mutation_below_ne.
  - (* array of strings *)
    destruct Hsrc as (strs & Hs & Hfit). fold n in Hs.
    pose proof (strings_at_length _ _ _ _ Hs) as Hlen.
    destruct (CopyPolicy_charptr_copy_spec s b o (calculateSize dims) strs Hs Hfit)
      as (s' & Hrun & Hm).
    fold n nb in Hrun, Hm.
    pose proof (strings_copy_at_intro s s' n strs Hm Hlen) as Hcopy.
    fold nb in Hcopy.
    assert (Hvalid : Forall (fun str => exists (s0 : state T) q,
                               read_string s0 q = Some str) strs).
    { eapply List.Forall_impl; [|exact (strings_at_valid _ _ _ _ Hs)].
      intros str [q Hq]. by exists s, q. }
    assert (Hnew : forall s2, strings_copy_at s2 nb strs ->
                     strings_at s2 (Ptr nb 0) n = Some strs).
    { intros s2 H2. rewrite <- Hlen. by apply strings_copy_at_read. }
    eexists _, s', (ObsStrings strs). split.
    { unfold ArrayImpl_ctor. simpl policy_copy. by mstep Hrun. }
    unfold array_observe, Array_ctor.
    cbn [impl_elem impl_array ptr_ size_ observe]. fold n nb.
    rewrite Hs, (Hnew s' Hcopy).
    rewrite (strings_at_app s s' _ (Ptr b o) n strs Hm Hs).
    split; [done|]. split; [done|]. split; [done|]. split; [done|].
    intros ms s'' Hall Hms. rewrite (Hnew s''); [done|].
    apply (strings_copy_at_frame s'); [done|]. intros b' Hb'.
    eapply run_mutations_frame; [done|]. by eapply mutation_below_ne.
Qed.

End Ownership.

(** ** The further properties at concrete inputs *)

Lemma int_neq_irrefl (x : Z) : int_neq x x = false.
Proof. unfold int_neq. by rewrite Z.eqb_refl. Qed.

Lemma int_neq_sym (x y : Z) : int_neq x y = int_neq y x.
Proof. unfold int_neq. by rewrite Z.eqb_sym. Qed.

Lemma CopyPolicy_copy_defined_witness :
  cells_at st_ints (Ptr 0 1) (N.to_nat 3) = None
  /\ CopyPolicy_copy (Ptr 0 1) 3 st_ints = None.
Proof.
  split; [reflexivity|].
  destruct (CopyPolicy_copy (Ptr 0 1) 3 st_ints) as [[q s']|] eqn:E;
    [|reflexivity].
  assert (Hknown : known_ptr st_ints (Ptr 0 1)) by (simpl; lia).
  destruct (proj1 (CopyPolicy_copy_defined st_ints (Ptr 0 1) 3 Hknown eq_refl)
              (ex_intro _ q (ex_intro _ s' E))) as [cs Hcs].
  discriminate Hcs.
Defined.

Lemma CopyPolicy_char_copy_defined_witness :
  read_string st_abc (Ptr 0 0) = Some (chars "abc")
  /\ exists q s', CopyPolicy_char_copy (Ptr 0 0) 5 st_abc = Some (q, s').
Proof.
  split; [reflexivity|].
  assert (Hknown : known_ptr st_abc (Ptr 0 0)) by (simpl; lia).
  apply (CopyPolicy_char_copy_defined st_abc (Ptr 0 0) 5 Hknown eq_refl).
  exists (chars "abc"). split; [reflexivity | simpl; lia].
Defined.

Lemma CopyPolicy_ctor_dtor_witness :
  cells_at st_ints (Ptr 0 0) (N.to_nat (calculateSize [3])) = Some (ints [1; 2; 3]%Z)
  /\ exists a s1 s2,
       ArrayImpl_ctor CopyPolicy TPod (Ptr 0 0) [3] st_ints = Some (a, s1)
       /\ ArrayImpl_dtor a s1 = Some (tt, s2)
       /\ mem s2 = [Some (ints [1; 2; 3]%Z); None]
       /\ ArrayImpl_dtor a s2 = None.
Proof.
  split; [reflexivity|].
  destruct (CopyPolicy_ctor_dtor st_ints 0 0 [3] (ints [1; 2; 3]%Z) eq_refl)
    as (a & s1 & s2 & Hc & Hd & Hm & _ & Hd2).
  exists a, s1, s2. split; [exact Hc|]. split; [exact Hd|].
  split; [exact Hm | exact Hd2].
Defined.

Lemma CopyPolicy_char_ctor_dtor_witness :
  read_string st_abc (Ptr 0 0) = Some (chars "abc")
  /\ exists a s1 s2,
       ArrayImpl_ctor CopyPolicy TChar (Ptr 0 0) [3] st_abc = Some (a, s1)
       /\ ArrayImpl_dtor a s1 = Some (tt, s2)
       /\ mem s2 = [Some (cstring (chars "abc")); None].
Proof.
  split; [reflexivity|].
  destruct (CopyPolicy_char_ctor_dtor st_abc 0 0 [3] (chars "abc") eq_refl)
    as (a & s1 & s2 & Hc & Hd & Hm & _).
  - vm_compute. lia.
  - reflexivity.
  - exists a, s1, s2. split; [exact Hc|]. split; [exact Hd | exact Hm].
Defined.

Lemma MovePolicy_ownership_witness :
  block_at st_ints 0 = Some (ints [1; 2; 3]%Z)
  /\ exists a1 a2 s',
       ArrayImpl_ctor MovePolicy TPod (Ptr 0 0) [3] st_ints = Some (a1, st_ints)
       /\ ArrayImpl_ctor MovePolicy TPod (Ptr 0 0) [3] st_ints = Some (a2, st_ints)
       /\ ArrayImpl_dtor a1 st_ints = Some (tt, s')
       /\ mem s' = [None]
       /\ ArrayImpl_dtor a2 s' = None.
Proof.
  split; [reflexivity|].
  assert (HE : TPod <> TCharPtr) by discriminate.
  destruct (MovePolicy_ownership TPod st_ints 0 (ints [1; 2; 3]%Z) [3] [3]
              HE eq_refl)
    as (a1 & a2 & s' & H1 & H2 & Hd & Hm & _ & _ & _ & Hd2 & _).
  exists a1, a2, s'. split; [exact H1|]. split; [exact H2|].
  split; [exact Hd|]. split; [exact Hm | exact Hd2].
Defined.

Lemma MoveStringPolicy_keeps_strings_witness :
  strings_at st_strings (Ptr 2 0) (N.to_nat 2) = Some [chars "x"; chars "yz"]
  /\ exists s',
       policy_destroy MoveStringPolicy TCharPtr (Ptr 2 0) 2 st_strings
       = Some (tt, s')
       /\ log s' = [EvDelete 2]
       /\ read_string s' (Ptr 1 0) = Some (chars "yz").
Proof.
  split; [reflexivity|].
  destruct (MoveStringPolicy_keeps_strings TCharPtr st_strings 2 2
              [chars "x"; chars "yz"] eq_refl)
    as (s' & Hd & Hl & _ & _ & Hr).
  exists s'. split; [exact Hd|]. split; [exact Hl|].
  apply Hr; [discriminate | reflexivity].
Defined.

Lemma charptr_destroy_spec_witness :
  cells_at st_strings (Ptr 2 0) (N.to_nat 2)
  = Some (handle_cells [Ptr 0 0; Ptr 1 0])
  /\ exists s',
       policy_destroy MovePolicy TCharPtr (Ptr 2 0) 2 st_strings = Some (tt, s')
       /\ log s' = [EvDelete 0; EvDelete 1; EvDelete 2].
Proof.
  split; [reflexivity|].
  destruct (charptr_destroy_spec MovePolicy st_strings 2 2 [Ptr 0 0; Ptr 1 0])
    as (s' & Hd & Hl & _).
  - by right.
  - reflexivity.
  - constructor; [|constructor; [|constructor]]; right; eexists _, _;
      (split; [reflexivity|]; split; [reflexivity | lia]).
  - simpl. constructor; [not_in_list|]. constructor; [not_in_list|]. constructor.
  - exists s'. split; [exact Hd | exact Hl].
Defined.

Lemma Array_equal_reflexive_witness :
  Array_equal int_neq (Array_ctor (Ptr 0 0) [3]) (Array_ctor (Ptr 0 0) [3]) st_ints
  = Some (true, st_ints).
Proof.
  apply (Array_equal_reflexive int_neq (Array_ctor (Ptr 0 0) [3]) st_ints
           (option_get (values_at st_ints (Ptr 0 0) 3))
           int_neq_irrefl eq_refl).
Defined.

Lemma Array_equal_symmetric_witness :
  Array_equal int_neq (Array_ctor (Ptr 0 0) [3]) (Array_ctor (Ptr 2 0) [3]) st_pair
  = Array_equal int_neq (Array_ctor (Ptr 2 0) [3]) (Array_ctor (Ptr 0 0) [3]) st_pair.
Proof.
  apply (Array_equal_symmetric int_neq (Ptr 0 0) (Ptr 2 0) [3] [3] st_pair
           (option_get (values_at st_pair (Ptr 0 0) 3))
           (option_get (values_at st_pair (Ptr 2 0) 3))
           int_neq_sym eq_refl eq_refl).
Defined.

Lemma deep_copy_equals_source_witness :
  exists a s',
    ArrayImpl_ctor CopyPolicy TPod (Ptr 0 0) [3] st_ints = Some (a, s')
    /\ Array_equal int_neq (impl_array a) (Array_ctor (Ptr 0 0) [3]) s'
       = Some (true, s').
Proof.
  destruct (deep_copy_equals_source int_neq st_ints 0 0 [3]
              (option_get (values_at st_ints (Ptr 0 0) 3))
              int_neq_irrefl eq_refl)
    as (a & s' & Hc & He & _).
  exists a, s'. split; [exact Hc | exact He].
Defined.

Lemma charptr_copy_not_equal_witness :
  strings_at st_strings (Ptr 2 0) (N.to_nat (calculateSize [2]))
  = Some [chars "x"; chars "yz"]
  /\ exists a s',
       ArrayImpl_ctor CopyPolicy TCharPtr (Ptr 2 0) [2] st_strings = Some (a, s')
       /\ Array_equal int_neq (impl_array a) (Array_ctor (Ptr 2 0) [2]) s'
          = Some (false, s').
Proof.
  split; [reflexivity|].
  destruct (charptr_copy_not_equal int_neq st_strings 2 0 [2]
              [chars "x"; chars "yz"] eq_refl)
    as (a & s' & Hc & _ & _ & He).
  - repeat constructor; vm_compute; discriminate.
  - reflexivity.
  - exists a, s'. split; [exact Hc | exact He].
Defined.

Lemma CopyPolicy_deep_copy_witness :
  copy_source TChar st_abc (Ptr 0 0) (calculateSize [3])
  /\ exists a s',
       ArrayImpl_ctor CopyPolicy TChar (Ptr 0 0) [3] st_abc = Some (a, s')
       /\ array_observe s' a = observe TChar st_abc (Ptr 0 0) 3
       /\ forall s'',
            run_mutations [MutStore (Ptr 0 0) 1 (Some (VChar "z"%char));
                           MutDelete (Ptr 0 0)] s' = Some (tt, s'') ->
            array_observe s'' a = observe TChar st_abc (Ptr 0 0) 3.
Proof.
  assert (Hsrc : copy_source TChar st_abc (Ptr 0 0) (calculateSize [3])).
  { split; [|reflexivity]. exists (chars "abc"). split; reflexivity. }
  split; [exact Hsrc|].
  destruct (CopyPolicy_deep_copy TChar st_abc 0 0 [3] Hsrc)
    as (a & s' & obs & Hc & _ & Ho & Ha & _ & Hmut).
  exists a, s'. split; [exact Hc|].
  change (N.to_nat (calculateSize [3])) with 3%nat in Ho.
  rewrite Ho. split; [exact Ha|].
  intros s''. apply Hmut.
  repeat constructor; unfold mutation_below; simpl; lia.
Defined.

(** C2 as stated fails for an array of [char]: the deep copy stops at the
    first terminator.  From the three characters a, NUL, b with dimensions
    [3] the array holds a, NUL and an indeterminate third element. *)
Lemma CopyPolicy_char_deep_copy_differs :
  cells_at st_a0b (Ptr 0 0) 3
  = Some [Some (VChar "a"%char); Some (VChar NUL); Some (VChar "b"%char)]
  /\ exists a s',
       ArrayImpl_ctor CopyPolicy TChar (Ptr 0 0) [3] st_a0b = Some (a, s')
       /\ array_contents s' a
          = Some [Some (VChar "a"%char); Some (VChar NUL); None]
       /\ array_contents s' a <> cells_at st_a0b (Ptr 0 0) 3.
Proof.
  split; [reflexivity|]. eexists _, _.
  split; [reflexivity|]. split; [reflexivity|]. vm_compute. discriminate.
Qed.
